(** * ImageProcessor: the ingest / enqueue / consume / transform pipeline

    A shallow embedding of the Go packages [internal/domain],
    [internal/repo], [internal/transport/kafka] and [internal/service],
    followed by the properties of the pipeline.

    Conventions.
    - A Go [string] is a Rocq [string]; a [[]byte] is a [list Byte.byte].
    - A Go [error] is a value of [error]; a function returning only [error]
      returns [option error] ([None] is [nil]); a function returning a
      value and an error returns a [Result].
    - Everything outside the process (PostgreSQL, the file system, the
      Kafka brokers, the clock, the UUID generator) lives in a [World];
      the answers the outside gives (faults, timestamps, fresh ids) are
      read from an [Oracle] at the current [tick], one tick per call.
    - Library code the repository calls but does not contain (the image
      codecs, the JSON codec, the interpolation kernel) is a [Variable]
      of the section that uses it. *)

From Stdlib Require Import ZArith List String Ascii Bool Lia DecimalString.
From Stdlib Require Import Sorted Permutation.
From stdpp Require Import base gmap strings list.

Local Open Scope string_scope.
Local Open Scope list_scope.
Local Open Scope Z_scope.

(** ** Errors and results *)

Inductive error : Type :=
| New (msg : string)                  (* errors.New(msg), fmt.Errorf(msg) *)
| Wrap (msg : string) (cause : error) (* fmt.Errorf(msg + ": %w", cause) *)
| External (what : string).           (* an error made by a library or the OS *)

Inductive Result (A : Type) : Type :=
| Ok (a : A)
| Err (e : error).
Arguments Ok {A} a.
Arguments Err {A} e.

Definition bytes : Type := list Byte.byte.

(** [[]byte(s)] *)
Definition bytes_of_string (s : string) : bytes := list_byte_of_string s.

(** Go's [int] and [uint] on a 64-bit platform, as integers with the
    wrap-around of the conversions written out. *)
Definition uint_of_int (x : Z) : Z := x mod 2 ^ 64.
Definition int_of_uint (u : Z) : Z :=
  if u <? 2 ^ 63 then u else u - 2 ^ 64.
Definition is_int (x : Z) : Prop := - 2 ^ 63 <= x < 2 ^ 63.

(** ** package domain *)

Module domain.

Inductive ProcessingStatus : Type :=
| StatusPending
| StatusProcessing
| StatusCompleted
| StatusFailed.

(** [type ImageFormat string]: a task read from the queue can carry any
    string here, so the type stays [string] and the three constants are
    strings. *)
Definition ImageFormat : Type := string.
Definition FormatJPEG : ImageFormat := "jpeg".
Definition FormatPNG : ImageFormat := "png".
Definition FormatGIF : ImageFormat := "gif".

Record Image : Type := {
  ID : string;
  OriginalPath : string;
  ProcessedPath : string;
  ThumbnailPath : string;
  Status : ProcessingStatus;
  Format : ImageFormat;
  OriginalWidth : Z;
  OriginalHeight : Z;
  ProcessedWidth : Z;
  ProcessedHeight : Z;
  CreatedAt : Z;
  UpdatedAt : Z
}.

Record ProcessingTask : Type := {
  ImageID : string;
  ImagePath : string;
  TaskFormat : ImageFormat;   (* field Format *)
  Width : Z;
  Height : Z
}.

Definition ErrInvalidImageID : error := New "invalid image id".
Definition ErrInvalidImagePath : error := New "invalid image path".
Definition ErrImageNotFound : error := New "image not found".
Definition ErrInvalidFormat : error := New "invalid image format".

Definition Validate (i : Image) : option error :=
  if String.eqb (ID i) "" then Some ErrInvalidImageID
  else if String.eqb (OriginalPath i) "" then Some ErrInvalidImagePath
  else None.

(** Field assignments [img.F = v] on the image a service holds. *)
Definition set_Status (s : ProcessingStatus) (i : Image) : Image :=
  {| ID := ID i; OriginalPath := OriginalPath i;
     ProcessedPath := ProcessedPath i; ThumbnailPath := ThumbnailPath i;
     Status := s; Format := Format i;
     OriginalWidth := OriginalWidth i; OriginalHeight := OriginalHeight i;
     ProcessedWidth := ProcessedWidth i; ProcessedHeight := ProcessedHeight i;
     CreatedAt := CreatedAt i; UpdatedAt := UpdatedAt i |}.

Definition set_UpdatedAt (t : Z) (i : Image) : Image :=
  {| ID := ID i; OriginalPath := OriginalPath i;
     ProcessedPath := ProcessedPath i; ThumbnailPath := ThumbnailPath i;
     Status := Status i; Format := Format i;
     OriginalWidth := OriginalWidth i; OriginalHeight := OriginalHeight i;
     ProcessedWidth := ProcessedWidth i; ProcessedHeight := ProcessedHeight i;
     CreatedAt := CreatedAt i; UpdatedAt := t |}.

Definition set_Processed (ppath tpath : string) (w h : Z) (i : Image) : Image :=
  {| ID := ID i; OriginalPath := OriginalPath i;
     ProcessedPath := ppath; ThumbnailPath := tpath;
     Status := Status i; Format := Format i;
     OriginalWidth := OriginalWidth i; OriginalHeight := OriginalHeight i;
     ProcessedWidth := w; ProcessedHeight := h;
     CreatedAt := CreatedAt i; UpdatedAt := UpdatedAt i |}.

(** The statuses the lifecycle ends in. *)
Definition terminal (s : ProcessingStatus) : bool :=
  match s with
  | StatusCompleted | StatusFailed => true
  | _ => false
  end.

(** [forward s s']: a row going from [s] to [s'] did not move back. *)
Definition forward (s s' : ProcessingStatus) : bool :=
  match s, s' with
  | StatusPending, _ => true
  | StatusProcessing, StatusPending => false
  | StatusProcessing, _ => true
  | StatusCompleted, StatusCompleted => true
  | StatusFailed, StatusFailed => true
  | _, _ => false
  end.

End domain.

(** ** Library models: image, resize *)

Module image.

(** What the pipeline observes of an [image.Image]: the size of its
    bounds and its pixel data. *)
Record Image : Type := {
  Dx : Z;
  Dy : Z;
  Pix : bytes
}.

End image.

Module resize.
Section Resize.

(** The Lanczos3 resampling of the pixel data to a given size. *)
Variable lanczos3 : Z -> Z -> image.Image -> bytes.
(** [uint(0.7 + float64(side)/scale)] with [scale = orig/target]: the
    side the library computes in floating point when it is asked for
    size 0 on that side. Arguments: target and original size of the
    other side, original size of this side. *)
Variable scaled_side : Z -> Z -> Z -> Z.

(** [resize.Resize(width, height uint, img, resize.Lanczos3)] of
    github.com/nfnt/resize: a zero side is computed from the other one,
    an image that already has the size asked for, or has no pixels, is
    returned as it is, and otherwise a new image is made whose bounds
    are [int(width)] by [int(height)]. This is the library for sizes up
    to the largest [int]; given a larger [uint], which is what a
    negative configured size converts to, and an image with pixels, the
    library panics, and the properties below that speak of the result
    take the configured sizes above zero. *)
Definition Resize (width height : Z) (img : image.Image) : image.Image :=
  let width' :=
    if width =? 0
    then (if height =? 0 then image.Dx img
          else scaled_side height (image.Dy img) (image.Dx img))
    else width in
  let height' :=
    if height =? 0
    then (if width =? 0 then image.Dy img
          else scaled_side width (image.Dx img) (image.Dy img))
    else height in
  if (int_of_uint width' =? image.Dx img) && (int_of_uint height' =? image.Dy img)
  then img
  else if (image.Dx img <=? 0) || (image.Dy img <=? 0)
  then img
  else {| image.Dx := int_of_uint width';
          image.Dy := int_of_uint height';
          image.Pix := lanczos3 width' height' img |}.

End Resize.
End resize.

(** ** Library model: github.com/segmentio/kafka-go *)

Module kafkago.

Record Message : Type := {
  Partition : Z;
  Offset : Z;
  Key : bytes;
  Value : bytes
}.

(** One counter of the [LeastBytes] balancer. *)
Record leastBytesCounter : Type := {
  partition : Z;
  nbytes : Z
}.

Definition makeCounters (partitions : list Z) : list leastBytesCounter :=
  map (fun p => {| partition := p; nbytes := 0 |}) partitions.

(** The scan of [Balance] for the first counter with the fewest bytes:
    [minIndex], [minBytes] so far, the index of the next counter. *)
Fixpoint scanMin (cs : list leastBytesCounter) (i minIndex : nat) (minBytes : Z)
  : nat :=
  match cs with
  | [] => minIndex
  | c :: cs' =>
      if nbytes c <? minBytes
      then scanMin cs' (S i) i (nbytes c)
      else scanMin cs' (S i) minIndex minBytes
  end.

(** [LeastBytes.Balance(msg, partitions...)]: the counters are made
    anew when the number of partitions changed, the partition that has
    received the fewest bytes is chosen, and the size of the message is
    added to its counter. The key takes part only through its length.
    The partitions are taken in ascending order, as the writer hands
    them over. [None] stands for the empty list of partitions, for which
    the writer fails before it balances. *)
Definition Balance (counters : list leastBytesCounter) (msg : Message)
    (partitions : list Z) : option (Z * list leastBytesCounter) :=
  let counters :=
    if Nat.eqb (length partitions) (length counters) then counters
    else makeCounters partitions in
  match counters with
  | [] => None
  | c0 :: rest =>
      let minIndex := scanMin rest 1%nat 0%nat (nbytes c0) in
      match counters !! minIndex with
      | None => None
      | Some c =>
          let c' := {| partition := partition c;
                       nbytes := nbytes c + Z.of_nat (length (Key msg))
                                          + Z.of_nat (length (Value msg)) |} in
          Some (partition c, <[minIndex := c']> counters)
      end
  end.

End kafkago.

(** ** The world outside the process *)

(** How a [Save] to the file system can go wrong: in [MkdirAll], in
    [os.Create], or in [io.Copy] after the first [n] bytes were written. *)
Inductive SaveFault : Type :=
| SaveOk
| MkdirFails (e : error)
| CreateFails (e : error)
| CopyFails (n : nat) (e : error).

Record Oracle : Type := {
  pg_error : nat -> option error;       (* the database call at this tick fails *)
  fs_save : nat -> SaveFault;           (* the file write at this tick *)
  fs_open : nat -> option error;        (* os.Open fails for another reason than a missing file *)
  fs_temp : nat -> option error;        (* os.CreateTemp fails *)
  kafka_error : nat -> option error;    (* the broker refuses the write *)
  time_Now : nat -> Z;
  uuid_New : nat -> string
}.

(** Answers of the outside to the calls of the operations that remove
    and list: [os.Remove] and [os.Stat] failing for another reason than a
    missing file, and a row of a result set that cannot be scanned, or a
    result set that ends on an error. *)
Record MoreFaults : Type := {
  fs_remove : nat -> option error;
  fs_stat : nat -> option error;
  pg_scan : nat -> option error;
  pg_rows : nat -> option error
}.

Record World : Type := {
  images : list domain.Image;           (* the rows of table images *)
  files : gmap string bytes;            (* files below the storage base path *)
  topic : list (Z * kafkago.Message);   (* messages appended, with their partition *)
  partitions : list Z;                  (* the partitions of the topic *)
  counters : list kafkago.leastBytesCounter; (* state of the writer's balancer *)
  tick : nat
}.

Definition set_images (m : list domain.Image) (w : World) : World :=
  {| images := m; files := files w; topic := topic w;
     partitions := partitions w; counters := counters w; tick := tick w |}.

Definition set_files (m : gmap string bytes) (w : World) : World :=
  {| images := images w; files := m; topic := topic w;
     partitions := partitions w; counters := counters w; tick := tick w |}.

Definition set_writer (t : list (Z * kafkago.Message))
    (cs : list kafkago.leastBytesCounter) (w : World) : World :=
  {| images := images w; files := files w; topic := t;
     partitions := partitions w; counters := cs; tick := tick w |}.

(** One call to the outside has been made. *)
Definition next (w : World) : World :=
  {| images := images w; files := files w; topic := topic w;
     partitions := partitions w; counters := counters w; tick := S (tick w) |}.

(** ** package repo *)

Module repo.
Section Repo.

Variable o : Oracle.

Import domain.

(** [GenerateID] *)
Definition GenerateID (w : World) : string * World :=
  (uuid_New o (tick w), next w).

(** WHERE id = $1 *)
Definition has_id (id : string) (row : Image) : bool := String.eqb (ID row) id.

(** [imageRepo.Create]: INSERT of the whole row; the primary key
    refuses a second row with the same id. *)
Definition Create (img : Image) (w : World) : option error * World :=
  match pg_error o (tick w) with
  | Some e => (Some (Wrap "failed to create image" e), next w)
  | None =>
      if existsb (has_id (ID img)) (images w)
      then (Some (Wrap "failed to create image" (External "duplicate key")),
            next w)
      else (None, set_images (images w ++ [img]) (next w))
  end.

(** [imageRepo.GetByID] *)
Definition GetByID (id : string) (w : World) : Result Image * World :=
  match pg_error o (tick w) with
  | Some e => (Err (Wrap "failed to get image" e), next w)
  | None =>
      match find (has_id id) (images w) with
      | None => (Err ErrImageNotFound, next w)
      | Some img => (Ok img, next w)
      end
  end.

(** The SET clause of [imageRepo.Update]: six columns are taken from
    the image handed in, the others stay as the row has them. *)
Definition updateRow (img row : Image) : Image :=
  {| ID := ID row; OriginalPath := OriginalPath row;
     ProcessedPath := ProcessedPath img; ThumbnailPath := ThumbnailPath img;
     Status := Status img; Format := Format row;
     OriginalWidth := OriginalWidth row; OriginalHeight := OriginalHeight row;
     ProcessedWidth := ProcessedWidth img; ProcessedHeight := ProcessedHeight img;
     CreatedAt := CreatedAt row; UpdatedAt := UpdatedAt img |}.

(** The UPDATE statement on one row of the table. *)
Definition updateWhere (img row : Image) : Image :=
  if has_id (ID img) row then updateRow img row else row.

(** [imageRepo.Update]: UPDATE ... WHERE id = $1; no row with that id
    is no error. *)
Definition Update (img : Image) (w : World) : option error * World :=
  match pg_error o (tick w) with
  | Some e => (Some (Wrap "failed to update image" e), next w)
  | None => (None, set_images (map (updateWhere img) (images w)) (next w))
  end.

(** [imageRepo.Delete] *)
Definition Delete (id : string) (w : World) : option error * World :=
  match pg_error o (tick w) with
  | Some e => (Some (Wrap "failed to delete image" e), next w)
  | None =>
      (None, set_images (List.filter (fun row => negb (has_id id row)) (images w)) (next w))
  end.

(** [storageRepo.Save]; [data] is what is left to read of the reader.
    The four operations of the store work on
    [filepath.Join(basePath, path)]; the model keys the files by [path]
    itself, which names the same file for the paths the services make
    (clean and local, see [clean_local] below), and the properties of
    the store on its own are stated for such paths. *)
Definition Save (path : string) (data : bytes) (w : World) : option error * World :=
  match fs_save o (tick w) with
  | MkdirFails e => (Some (Wrap "failed to create directory" e), next w)
  | CreateFails e => (Some (Wrap "failed to create file" e), next w)
  | CopyFails n e =>
      (Some (Wrap "failed to write file" e),
       set_files (<[path := take n data]> (files w)) (next w))
  | SaveOk => (None, set_files (<[path := data]> (files w)) (next w))
  end.

(** [storageRepo.Read], of a path that names a file of the store or
    nothing (directories are not in [files]). *)
Definition Read (path : string) (w : World) : Result bytes * World :=
  match files w !! path with
  | None => (Err (Wrap "file not found" (External "no such file")), next w)
  | Some data =>
      match fs_open o (tick w) with
      | Some e => (Err (Wrap "failed to open file" e), next w)
      | None => (Ok data, next w)
      end
  end.

(** [time.Now()] *)
Definition Now (w : World) : Z * World := (time_Now o (tick w), next w).

Variable fo : MoreFaults.

(** [storageRepo.Delete] (the name [Delete] is taken by the one of the
    image repository), of a path that names a file of the store or
    nothing: a file that is not there is no error. *)
Definition DeleteFile (path : string) (w : World) : option error * World :=
  match files w !! path with
  | None => (None, next w)
  | Some _ =>
      match fs_remove fo (tick w) with
      | Some e => (Some (Wrap "failed to delete file" e), next w)
      | None => (None, set_files (delete path (files w)) (next w))
      end
  end.

(** [storageRepo.Exists], asked about a path that is or was a file of
    the store (directories are not in [files]). *)
Definition Exists (path : string) (w : World) : Result bool * World :=
  match files w !! path with
  | None => (Ok false, next w)
  | Some _ =>
      match fs_stat fo (tick w) with
      | Some e => (Err (Wrap "failed to check file existence" e), next w)
      | None => (Ok true, next w)
      end
  end.

(** ORDER BY created_at DESC, by insertion: a row goes before the
    first row that is not newer than it. Rows with the same created_at
    come in an order the database chooses; here they keep the order of
    the table. *)
Fixpoint insertDesc (row : Image) (sorted : list Image) : list Image :=
  match sorted with
  | [] => [row]
  | r :: rest =>
      if CreatedAt r <=? CreatedAt row then row :: sorted
      else r :: insertDesc row rest
  end.

Definition orderByCreatedAtDesc (rows : list Image) : list Image :=
  fold_right insertDesc [] rows.

(** [imageRepo.List]: SELECT ... ORDER BY created_at DESC LIMIT $1
    OFFSET $2. The database refuses a negative LIMIT or OFFSET; a row
    can fail to scan, and the result set can end on an error. *)
Definition List (limit offset : Z) (w : World) : Result (list Image) * World :=
  match pg_error o (tick w) with
  | Some e => (Err (Wrap "failed to list images" e), next w)
  | None =>
      if (limit <? 0) || (offset <? 0)
      then (Err (Wrap "failed to list images"
                   (External "LIMIT and OFFSET must not be negative")),
            next w)
      else
        let page :=
          take (Z.to_nat limit)
            (drop (Z.to_nat offset) (orderByCreatedAtDesc (images w))) in
        match page, pg_scan fo (tick w) with
        | _ :: _, Some e => (Err (Wrap "failed to scan image" e), next w)
        | _, _ =>
            match pg_rows fo (tick w) with
            | Some e => (Err (Wrap "failed to iterate images" e), next w)
            | None => (Ok page, next w)
            end
        end
  end.

End Repo.
End repo.

(** ** package config *)

Module config.

Record ImageConfig : Type := {
  MaxFileSize : Z;
  ThumbnailWidth : Z;
  ThumbnailHeight : Z;
  ProcessedWidth : Z;
  ProcessedHeight : Z;
  WatermarkEnabled : bool;
  WatermarkPath : string
}.

(** The other parts of [Config]. [Host] and [Port] are fields of both
    the server and the database part, and carry the name of the part
    here; a [time.Duration] is a number of nanoseconds. *)
Record ServerConfig : Type := {
  ServerHost : string;
  ServerPort : Z;
  ReadTimeout : Z;
  WriteTimeout : Z
}.

Record DatabaseConfig : Type := {
  DatabaseHost : string;
  DatabasePort : Z;
  User : string;
  Password : string;
  DBName : string;
  SSLMode : string
}.

Record KafkaConfig : Type := {
  Brokers : list string;
  Topic : string;
  ConsumerGroup : string
}.

Record StorageConfig : Type := {
  BasePath : string
}.

Record Config : Type := {
  Server : ServerConfig;
  Database : DatabaseConfig;
  Kafka : KafkaConfig;
  Storage : StorageConfig;
  Image : ImageConfig
}.

Definition time_Second : Z := 1000000000.

(** [Config.Validate] *)
Definition Validate (c : Config) : option error :=
  if String.eqb (BasePath (Storage c)) ""
  then Some (New "storage base path is required")
  else if Nat.eqb (length (Brokers (Kafka c))) 0
  then Some (New "kafka brokers are required")
  else None.

Section Load.

(** The environment of the process, and the parsers of strconv, time
    and strings the loader calls. *)
Variable os_Getenv : string -> string.
Variable strconv_Atoi : string -> Result Z.
Variable strconv_ParseInt : string -> Result Z.
Variable strconv_ParseBool : string -> Result bool.
Variable time_ParseDuration : string -> Result Z.
Variable strings_Split : string -> string -> list string.
Variable strings_TrimSpace : string -> string.

(** [getEnv] *)
Definition getEnv (key defaultValue : string) : string :=
  let value := os_Getenv key in
  if String.eqb value "" then defaultValue else value.

(** [getEnvInt] *)
Definition getEnvInt (key : string) (defaultValue : Z) : Z :=
  let value := os_Getenv key in
  if String.eqb value "" then defaultValue
  else match strconv_Atoi value with
       | Ok intValue => intValue
       | Err _ => defaultValue
       end.

(** [getEnvInt64] *)
Definition getEnvInt64 (key : string) (defaultValue : Z) : Z :=
  let value := os_Getenv key in
  if String.eqb value "" then defaultValue
  else match strconv_ParseInt value with
       | Ok intValue => intValue
       | Err _ => defaultValue
       end.

(** [getEnvBool] *)
Definition getEnvBool (key : string) (defaultValue : bool) : bool :=
  let value := os_Getenv key in
  if String.eqb value "" then defaultValue
  else match strconv_ParseBool value with
       | Ok boolValue => boolValue
       | Err _ => defaultValue
       end.

(** [getEnvDuration] *)
Definition getEnvDuration (key : string) (defaultValue : Z) : Z :=
  let value := os_Getenv key in
  if String.eqb value "" then defaultValue
  else match time_ParseDuration value with
       | Ok duration => duration
       | Err _ => defaultValue
       end.

(** The loop of [getEnvSlice] over the parts: each part is trimmed and
    kept when something is left of it. *)
Fixpoint trimmedParts (parts : list string) : list string :=
  match parts with
  | [] => []
  | part :: rest =>
      let trimmed := strings_TrimSpace part in
      if String.eqb trimmed "" then trimmedParts rest
      else trimmed :: trimmedParts rest
  end.

(** [getEnvSlice] *)
Definition getEnvSlice (key : string) (defaultValue : list string) : list string :=
  let value := os_Getenv key in
  if String.eqb value "" then defaultValue
  else
    let result := trimmedParts (strings_Split value ",") in
    if (0 <? length result)%nat then result else defaultValue.

(** [Load] *)
Definition Load : Result Config :=
  let cfg :=
    {| Server :=
         {| ServerHost := getEnv "SERVER_HOST" "0.0.0.0";
            ServerPort := getEnvInt "SERVER_PORT" 8080;
            ReadTimeout := getEnvDuration "SERVER_READ_TIMEOUT" (30 * time_Second);
            WriteTimeout := getEnvDuration "SERVER_WRITE_TIMEOUT" (30 * time_Second) |};
       Database :=
         {| DatabaseHost := getEnv "DB_HOST" "localhost";
            DatabasePort := getEnvInt "DB_PORT" 5432;
            User := getEnv "DB_USER" "postgres";
            Password := getEnv "DB_PASSWORD" "postgres";
            DBName := getEnv "DB_NAME" "imageprocessor";
            SSLMode := getEnv "DB_SSLMODE" "disable" |};
       Kafka :=
         {| Brokers := getEnvSlice "KAFKA_BROKERS" ["localhost:9092"];
            Topic := getEnv "KAFKA_TOPIC" "image-processing";
            ConsumerGroup := getEnv "KAFKA_CONSUMER_GROUP" "image-processor-group" |};
       Storage := {| BasePath := getEnv "STORAGE_BASE_PATH" "./storage" |};
       Image :=
         {| MaxFileSize := getEnvInt64 "IMAGE_MAX_FILE_SIZE" (10 * 1024 * 1024);
            ThumbnailWidth := getEnvInt "IMAGE_THUMBNAIL_WIDTH" 200;
            ThumbnailHeight := getEnvInt "IMAGE_THUMBNAIL_HEIGHT" 200;
            ProcessedWidth := getEnvInt "IMAGE_PROCESSED_WIDTH" 800;
            ProcessedHeight := getEnvInt "IMAGE_PROCESSED_HEIGHT" 800;
            WatermarkEnabled := getEnvBool "IMAGE_WATERMARK_ENABLED" false;
            WatermarkPath := getEnv "IMAGE_WATERMARK_PATH" "" |} |} in
  match Validate cfg with
  | Some e => Err (Wrap "config validation failed" e)
  | None => Ok cfg
  end.

End Load.

End config.

(** ** package kafka (internal/transport/kafka) *)

Module kafka.

Import domain.

Section Producer.

Variable o : Oracle.
Variable json_Marshal : ProcessingTask -> Result bytes.

(** [(kafka.Writer).WriteMessages] with one message and the
    [LeastBytes] balancer [NewProducer] configures. *)
Definition WriteMessages (msg : kafkago.Message) (w : World)
  : option error * World :=
  match kafkago.Balance (counters w) msg (partitions w) with
  | None => (Some (External "no partitions"), next w)
  | Some (p, cs) =>
      match kafka_error o (tick w) with
      | Some e => (Some e, set_writer (topic w) cs (next w))
      | None => (None, set_writer (topic w ++ [(p, msg)]) cs (next w))
      end
  end.

(** [producer.SendTask] *)
Definition SendTask (task : ProcessingTask) (w : World) : option error * World :=
  match json_Marshal task with
  | Err e => (Some (Wrap "failed to marshal task" e), w)
  | Ok data =>
      let msg := {| kafkago.Partition := 0; kafkago.Offset := 0;
                    kafkago.Key := bytes_of_string (ImageID task);
                    kafkago.Value := data |} in
      match WriteMessages msg w with
      | (Some e, w') => (Some (Wrap "failed to write message" e), w')
      | (None, w') => (None, w')
      end
  end.

End Producer.

(** What the consumer does at its reader and its processor, in the
    order it does it. *)
Inductive Event : Type :=
| EvFetch (m : kafkago.Message)
| EvProcess (t : ProcessingTask) (r : option error)
| EvCommit (m : kafkago.Message) (r : option error).

(** What the outside answers during one turn of the loop: whether the
    context is done when the turn starts, what [FetchMessage] returns,
    and what [CommitMessages] returns. *)
Record Round : Type := {
  ctx_done : bool;
  fetched : Result kafkago.Message;
  commit_result : option error
}.

Inductive Flow : Type :=
| Continue
| Return (e : error).

Definition ctx_Err : error := External "context canceled".

Section Consumer.

(** The [Processor] interface, over the state it works on. *)
Variable St : Type.
Variable ProcessImage : ProcessingTask -> St -> option error * St.
Variable json_Unmarshal : bytes -> Result ProcessingTask.

(** The body of the [for] loop of [consumer.Start]. *)
Definition iteration (r : Round) (s : St) : Flow * St * list Event :=
  if ctx_done r then (Return ctx_Err, s, [])
  else
    match fetched r with
    | Err e => (Return (Wrap "failed to fetch message" e), s, [])
    | Ok msg =>
        match json_Unmarshal (kafkago.Value msg) with
        | Err _ =>
            (Continue, s, [EvFetch msg; EvCommit msg (commit_result r)])
        | Ok task =>
            let '(res, s') := ProcessImage task s in
            let evs := [EvFetch msg; EvProcess task res;
                        EvCommit msg (commit_result r)] in
            match commit_result r with
            | Some e => (Return (Wrap "failed to commit message" e), s', evs)
            | None => (Continue, s', evs)
            end
        end
    end.

(** [consumer.Start]: the loop, run against the answers of the
    outside for its first turns. [None] says that the loop is still
    running after them; the function itself has no other way out
    than returning an error. *)
Fixpoint Start (rounds : list Round) (s : St) : option error * St * list Event :=
  match rounds with
  | [] => (None, s, [])
  | r :: rest =>
      match iteration r s with
      | (Return e, s', evs) => (Some e, s', evs)
      | (Continue, s', evs) =>
          let '(res, s'', evs') := Start rest s' in
          (res, s'', evs ++ evs')
      end
  end.

(** The traces in which every message fetched is handed to the
    processor when it deserializes, and not otherwise, and is then
    committed, once, before the next message is fetched. *)
Inductive handled : list Event -> Prop :=
| handled_nil : handled []
| handled_task msg task res c tr :
    json_Unmarshal (kafkago.Value msg) = Ok task ->
    handled tr ->
    handled (EvFetch msg :: EvProcess task res :: EvCommit msg c :: tr)
| handled_drop msg e c tr :
    json_Unmarshal (kafkago.Value msg) = Err e ->
    handled tr ->
    handled (EvFetch msg :: EvCommit msg c :: tr).

End Consumer.

End kafka.

(** ** Library models: path/filepath, strings *)

Definition is_upper (c : ascii) : bool :=
  (65 <=? nat_of_ascii c)%nat && (nat_of_ascii c <=? 90)%nat.

(** The test [strings.ToLower] starts with: no byte of the string is
    [utf8.RuneSelf] (0x80) or above. *)
Fixpoint isASCII (s : string) : bool :=
  match s with
  | EmptyString => true
  | String c rest => (nat_of_ascii c <? 128)%nat && isASCII rest
  end.

(** [strings.ToLower] on a string that passes [isASCII]: the letters A
    to Z are lowered and every other byte is kept. (A string with a
    byte from 0x80 on is lowered rune by rune with the tables of package
    unicode, which are not modelled: there the model still lowers A to
    Z only.) *)
Fixpoint strings_ToLower (s : string) : string :=
  match s with
  | EmptyString => EmptyString
  | String c rest =>
      String (if is_upper c then ascii_of_nat (nat_of_ascii c + 32) else c)
             (strings_ToLower rest)
  end.

(** The loop of [filepath.Ext]: from the last byte backwards, up to the
    first separator; the first dot met starts the extension. *)
Fixpoint extScan (backwards : list ascii) (suffix : list ascii) : string :=
  match backwards with
  | [] => ""
  | c :: more =>
      if Ascii.eqb c "/" then ""
      else if Ascii.eqb c "." then string_of_list_ascii (c :: suffix)
      else extScan more (c :: suffix)
  end.

Definition filepath_Ext (path : string) : string :=
  extScan (rev (list_ascii_of_string path)) [].

(** [filepath.Join(dir, name)] for a directory name and a file name
    that has no separator and no dot segment in it, where [Clean]
    changes nothing. *)
Definition filepath_Join (dir name : string) : string :=
  dir +:+ "/" +:+ name.

(** The elements of a path: the pieces between its separators (the
    separator of a Unix system), as [strings.Split(path, "/")] gives
    them. *)
Fixpoint path_elements (path : string) : list string :=
  match path with
  | EmptyString => [EmptyString]
  | String c rest =>
      if Ascii.eqb c "/" then EmptyString :: path_elements rest
      else match path_elements rest with
           | [] => [String c EmptyString]
           | e :: es => String c e :: es
           end
  end.

(** An element that [filepath.Clean] keeps where it is: not empty (as
    the elements around a leading, trailing or doubled separator are),
    not [.] and not [..]. *)
Definition is_name (e : string) : bool :=
  negb (String.eqb e "") && negb (String.eqb e ".") && negb (String.eqb e "..").

(** A path that [filepath.Clean] returns as it is and that stays below
    the directory it is joined to: all its elements are names. For such
    a path [filepath.Join(base, path)] is the cleaned base followed by
    the path, so that two such paths name one file only when they are
    the same string. *)
Definition clean_local (path : string) : bool :=
  forallb is_name (path_elements path).

(** A string without a separator in it. *)
Definition no_separator (s : string) : bool :=
  forallb (fun c => negb (Ascii.eqb c "/")) (list_ascii_of_string s).

(** ** package service *)

Module service.

Import domain.

(** What [Upload] reads of the [multipart.FileHeader]. *)
Record FileHeader : Type := {
  Filename : string;
  Size : Z
}.

(** [parseFormat] *)
Definition parseFormat (ext : string) : Result ImageFormat :=
  if String.eqb ext ".jpg" || String.eqb ext ".jpeg" then Ok FormatJPEG
  else if String.eqb ext ".png" then Ok FormatPNG
  else if String.eqb ext ".gif" then Ok FormatGIF
  else Err ErrInvalidFormat.

(** [getExtension] *)
Definition getExtension (format : ImageFormat) : string :=
  if String.eqb format FormatJPEG then ".jpg"
  else if String.eqb format FormatPNG then ".png"
  else if String.eqb format FormatGIF then ".gif"
  else ".jpg".

Section Service.

Variable o : Oracle.
Variable cfg : config.ImageConfig.

(** The codecs of image/jpeg, image/png and image/gif, on the whole
    content of the reader or writer they are given. *)
Variable jpeg_Decode png_Decode gif_Decode : bytes -> Result image.Image.
Variable jpeg_Encode : image.Image -> Z -> Result bytes.
Variable png_Encode gif_Encode : image.Image -> Result bytes.
Variable lanczos3 : Z -> Z -> image.Image -> bytes.
Variable scaled_side : Z -> Z -> Z -> Z.
Variable json_Marshal : ProcessingTask -> Result bytes.

(** [decodeImageForDimensions] in the image service and [decodeImage]
    in the processor service have the same body. *)
Definition decodeImage (r : bytes) (format : ImageFormat) : Result image.Image :=
  if String.eqb format FormatJPEG then jpeg_Decode r
  else if String.eqb format FormatPNG then png_Decode r
  else if String.eqb format FormatGIF then gif_Decode r
  else Err ErrInvalidFormat.

Definition decodeImageForDimensions := decodeImage.

(** [imageService.Upload] *)
Definition Upload (file : bytes) (header : FileHeader) (w : World)
  : Result Image * World :=
  if config.MaxFileSize cfg <? Size header
  then (Err (New "file size exceeds maximum allowed size"), w)
  else
    let '(id, w) := repo.GenerateID o w in
    let ext := strings_ToLower (filepath_Ext (Filename header)) in
    match parseFormat ext with
    | Err e => (Err (Wrap "unsupported format" e), w)
    | Ok format =>
        let originalPath := filepath_Join "original" (id +:+ ext) in
        match repo.Save o originalPath file w with
        | (Some e, w) => (Err (Wrap "failed to save original file" e), w)
        | (None, w) =>
            match decodeImageForDimensions file format with
            | Err e => (Err (Wrap "failed to decode image" e), w)
            | Ok img =>
                let width := image.Dx img in
                let height := image.Dy img in
                let '(now, w) := repo.Now o w in
                let image :=
                  {| ID := id; OriginalPath := originalPath;
                     ProcessedPath := ""; ThumbnailPath := "";
                     Status := StatusPending; Format := format;
                     OriginalWidth := width; OriginalHeight := height;
                     ProcessedWidth := 0; ProcessedHeight := 0;
                     CreatedAt := now; UpdatedAt := now |} in
                match Validate image with
                | Some e => (Err (Wrap "invalid image" e), w)
                | None =>
                    match repo.Create o image w with
                    | (Some e, w) =>
                        (Err (Wrap "failed to create image record" e), w)
                    | (None, w) =>
                        let task :=
                          {| ImageID := id; ImagePath := originalPath;
                             TaskFormat := format;
                             Width := width; Height := height |} in
                        match kafka.SendTask o json_Marshal task w with
                        | (Some e, w) =>
                            (Err (Wrap "failed to send processing task" e), w)
                        | (None, w) => (Ok image, w)
                        end
                    end
                end
            end
        end
    end.

(** [processorService.saveImage] *)
Definition saveImage (path : string) (img : image.Image) (format : ImageFormat)
    (w : World) : option error * World :=
  match fs_temp o (tick w) with
  | Some e => (Some (Wrap "failed to create temp file" e), next w)
  | None =>
      let w := next w in
      let encoded :=
        if String.eqb format FormatJPEG then
          match jpeg_Encode img 90 with
          | Err e => Err (Wrap "failed to encode JPEG" e)
          | Ok data => Ok data
          end
        else if String.eqb format FormatPNG then
          match png_Encode img with
          | Err e => Err (Wrap "failed to encode PNG" e)
          | Ok data => Ok data
          end
        else if String.eqb format FormatGIF then
          match gif_Encode img with
          | Err e => Err (Wrap "failed to encode GIF" e)
          | Ok data => Ok data
          end
        else Err ErrInvalidFormat in
      match encoded with
      | Err e => (Some e, w)
      | Ok data => repo.Save o path data w
      end
  end.

(** The block the processor repeats on each of its failure paths
    after the row was marked processing: set the status to failed,
    write the row, drop the result of the write, return the error. *)
Definition markFailed (img : Image) (msg : string) (e : error) (w : World)
  : option error * World :=
  let img := set_Status StatusFailed img in
  let '(now, w) := repo.Now o w in
  let img := set_UpdatedAt now img in
  let '(_, w) := repo.Update o img w in
  (Some (Wrap msg e), w).

(** [processorService.ProcessImage] *)
Definition ProcessImage (task : ProcessingTask) (w : World)
  : option error * World :=
  match repo.GetByID o (ImageID task) w with
  | (Err e, w) => (Some (Wrap "failed to get image" e), w)
  | (Ok img, w) =>
      let img := set_Status StatusProcessing img in
      let '(now, w) := repo.Now o w in
      let img := set_UpdatedAt now img in
      match repo.Update o img w with
      | (Some e, w) => (Some (Wrap "failed to update status" e), w)
      | (None, w) =>
          match repo.Read o (ImagePath task) w with
          | (Err e, w) => markFailed img "failed to read original image" e w
          | (Ok originalReader, w) =>
              match decodeImage originalReader (TaskFormat task) with
              | Err e => markFailed img "failed to decode image" e w
              | Ok originalImg =>
                  let processedImg :=
                    resize.Resize lanczos3 scaled_side
                      (uint_of_int (config.ProcessedWidth cfg))
                      (uint_of_int (config.ProcessedHeight cfg))
                      originalImg in
                  let thumbnailImg :=
                    resize.Resize lanczos3 scaled_side
                      (uint_of_int (config.ThumbnailWidth cfg))
                      (uint_of_int (config.ThumbnailHeight cfg))
                      originalImg in
                  let processedPath :=
                    filepath_Join "processed"
                      (ImageID task +:+ getExtension (TaskFormat task)) in
                  match saveImage processedPath processedImg (TaskFormat task) w with
                  | (Some e, w) =>
                      markFailed img "failed to save processed image" e w
                  | (None, w) =>
                      let thumbnailPath :=
                        filepath_Join "thumbnail"
                          (ImageID task +:+ getExtension (TaskFormat task)) in
                      match saveImage thumbnailPath thumbnailImg (TaskFormat task) w with
                      | (Some e, w) =>
                          markFailed img "failed to save thumbnail" e w
                      | (None, w) =>
                          (* the watermark branch has an empty body *)
                          let img :=
                            set_Processed processedPath thumbnailPath
                              (image.Dx processedImg) (image.Dy processedImg)
                              (set_Status StatusCompleted img) in
                          let '(now, w) := repo.Now o w in
                          let img := set_UpdatedAt now img in
                          match repo.Update o img w with
                          | (Some e, w) =>
                              (Some (Wrap "failed to update image record" e), w)
                          | (None, w) => (None, w)
                          end
                      end
                  end
              end
          end
      end
  end.

Variable fo : MoreFaults.

(** [imageService.GetByID] *)
Definition GetByID (id : string) (w : World) : Result Image * World :=
  repo.GetByID o id w.

(** One of the three blocks of [imageService.Delete] that remove a
    blob: nothing is asked of the store for an empty path, and the
    error of the store is dropped. *)
Definition dropBlob (path : string) (w : World) : World :=
  if String.eqb path "" then w else snd (repo.DeleteFile fo path w).

(** [imageService.Delete] *)
Definition Delete (id : string) (w : World) : option error * World :=
  match repo.GetByID o id w with
  | (Err e, w) => (Some e, w)
  | (Ok img, w) =>
      let w := dropBlob (OriginalPath img) w in
      let w := dropBlob (ProcessedPath img) w in
      let w := dropBlob (ThumbnailPath img) w in
      repo.Delete o id w
  end.

(** [imageService.List] *)
Definition List (limit offset : Z) (w : World) : Result (list Image) * World :=
  repo.List o fo limit offset w.

End Service.

End service.

(** ** package http (internal/transport/http) *)

(** [err.Error()] *)
Fixpoint error_string (e : error) : string :=
  match e with
  | New msg => msg
  | Wrap msg cause => msg +:+ ": " +:+ error_string cause
  | External what => what
  end.

(** [err == domain.ErrImageNotFound]: the comparison with the value the
    domain package declares, which no wrapped error and no error of a
    library is. *)
Definition is_ErrImageNotFound (e : error) : bool :=
  match e with
  | New msg => String.eqb msg "image not found"
  | _ => false
  end.

Module httptransport.

Import domain.

(** What a handler writes as the body of its answer: the text of
    [http.Error], the bytes of a blob, the JSON of an image or of a list
    of images (a nil slice, which the encoder writes as null, is the
    empty list here), or nothing. *)
Inductive Body : Type :=
| Text (s : string)
| Blob (b : bytes)
| ImageJSON (img : Image)
| ImagesJSON (imgs : list Image)
| NoBody.

Record Response : Type := {
  StatusCode : Z;
  ContentType : string;
  Payload : Body
}.

(** [http.Error(w, msg, code)]; on the wire a newline follows the text. *)
Definition http_Error (msg : string) (code : Z) : Response :=
  {| StatusCode := code; ContentType := "text/plain; charset=utf-8";
     Payload := Text msg |}.

(** What the form of an upload request holds: the error of
    [ParseMultipartForm], if any, and the file under the name image or
    the error of [FormFile]. *)
Record UploadForm : Type := {
  parse_error : option error;
  form_file : Result (bytes * service.FileHeader)
}.

Section Handler.

Variable o : Oracle.
Variable fo : MoreFaults.
Variable cfg : config.ImageConfig.
Variable jpeg_Decode png_Decode gif_Decode : bytes -> Result image.Image.
Variable json_Marshal : ProcessingTask -> Result bytes.
Variable strconv_Atoi : string -> Result Z.

(** [Handler.Upload] *)
Definition Upload (form : UploadForm) (w : World) : Response * World :=
  match parse_error form with
  | Some _ => (http_Error "failed to parse multipart form" 400, w)
  | None =>
      match form_file form with
      | Err _ => (http_Error "failed to get file from form" 400, w)
      | Ok (file, header) =>
          match service.Upload o cfg jpeg_Decode png_Decode gif_Decode
                  json_Marshal file header w with
          | (Err e, w) =>
              (http_Error ("failed to upload image: " +:+ error_string e) 500, w)
          | (Ok img, w) =>
              ({| StatusCode := 200; ContentType := "application/json";
                  Payload := ImageJSON img |}, w)
          end
      end
  end.

(** The content type [Handler.GetImage] chooses. *)
Definition contentTypeOf (format : ImageFormat) : string :=
  if String.eqb format FormatPNG then "image/png"
  else if String.eqb format FormatGIF then "image/gif"
  else "image/jpeg".

(** [Handler.GetImage] *)
Definition GetImage (id : string) (w : World) : Response * World :=
  if String.eqb id "" then (http_Error "image id is required" 400, w)
  else
    match service.GetByID o id w with
    | (Err e, w) =>
        if is_ErrImageNotFound e then (http_Error "image not found" 404, w)
        else (http_Error ("failed to get image: " +:+ error_string e) 500, w)
    | (Ok img, w) =>
        let imagePath :=
          if String.eqb (ProcessedPath img) "" then OriginalPath img
          else ProcessedPath img in
        match repo.Read o imagePath w with
        | (Err _, w) => (http_Error "failed to read image file" 500, w)
        | (Ok reader, w) =>
            ({| StatusCode := 200; ContentType := contentTypeOf (Format img);
                Payload := Blob reader |}, w)
        end
    end.

(** [Handler.GetImageInfo] *)
Definition GetImageInfo (id : string) (w : World) : Response * World :=
  if String.eqb id "" then (http_Error "image id is required" 400, w)
  else
    match service.GetByID o id w with
    | (Err e, w) =>
        if is_ErrImageNotFound e then (http_Error "image not found" 404, w)
        else (http_Error ("failed to get image: " +:+ error_string e) 500, w)
    | (Ok img, w) =>
        ({| StatusCode := 200; ContentType := "application/json";
            Payload := ImageJSON img |}, w)
    end.

(** The limit and the offset [Handler.ListImages] reads from the query;
    [query] is [r.URL.Query().Get]. *)
Definition listLimit (query : string -> string) : Z :=
  let limitStr := query "limit" in
  if String.eqb limitStr "" then 50
  else match strconv_Atoi limitStr with
       | Ok l => if 0 <? l then l else 50
       | Err _ => 50
       end.

Definition listOffset (query : string -> string) : Z :=
  let offsetStr := query "offset" in
  if String.eqb offsetStr "" then 0
  else match strconv_Atoi offsetStr with
       | Ok off => if 0 <=? off then off else 0
       | Err _ => 0
       end.

(** [Handler.ListImages] *)
Definition ListImages (query : string -> string) (w : World) : Response * World :=
  let limit := listLimit query in
  let offset := listOffset query in
  match service.List o fo limit offset w with
  | (Err e, w) =>
      (http_Error ("failed to list images: " +:+ error_string e) 500, w)
  | (Ok images, w) =>
      ({| StatusCode := 200; ContentType := "application/json";
          Payload := ImagesJSON images |}, w)
  end.

(** [Handler.DeleteImage] *)
Definition DeleteImage (id : string) (w : World) : Response * World :=
  if String.eqb id "" then (http_Error "image id is required" 400, w)
  else
    match service.Delete o fo id w with
    | (Some e, w) =>
        if is_ErrImageNotFound e then (http_Error "image not found" 404, w)
        else (http_Error ("failed to delete image: " +:+ error_string e) 500, w)
    | (None, w) =>
        ({| StatusCode := 204; ContentType := ""; Payload := NoBody |}, w)
    end.

End Handler.

End httptransport.

(** ** Fixtures: a deployment with stand-ins for the libraries *)

Module Fixture.

Import domain.

(** No call to the outside fails; the clock shows the tick; the ids
    are numbered. *)
Definition calm : Oracle :=
  {| pg_error := fun _ => None;
     fs_save := fun _ => SaveOk;
     fs_open := fun _ => None;
     fs_temp := fun _ => None;
     kafka_error := fun _ => None;
     time_Now := fun n => Z.of_nat n;
     uuid_New := fun _ => "id-1" |}.

(** The database fails from call [n] on. *)
Definition pg_down_from (n : nat) : Oracle :=
  {| pg_error := fun t => if (n <=? t)%nat then Some (External "connection lost") else None;
     fs_save := fun _ => SaveOk;
     fs_open := fun _ => None;
     fs_temp := fun _ => None;
     kafka_error := fun _ => None;
     time_Now := fun n => Z.of_nat n;
     uuid_New := fun _ => "id-1" |}.

(** The defaults of [config.Load]. *)
Definition cfg : config.ImageConfig :=
  {| config.MaxFileSize := 10 * 1024 * 1024;
     config.ThumbnailWidth := 200;
     config.ThumbnailHeight := 200;
     config.ProcessedWidth := 800;
     config.ProcessedHeight := 800;
     config.WatermarkEnabled := false;
     config.WatermarkPath := "" |}.

(** A decoder that finds a picture of 1920 by 1080 in whatever it
    reads, and encoders that write the pixel data as it is. *)
Definition decode (b : bytes) : Result image.Image :=
  Ok {| image.Dx := 1920; image.Dy := 1080; image.Pix := b |}.
Definition encodeq (img : image.Image) (quality : Z) : Result bytes :=
  Ok (image.Pix img).
Definition encode (img : image.Image) : Result bytes := Ok (image.Pix img).
Definition kernel (w h : Z) (img : image.Image) : bytes := image.Pix img.
Definition side (target other this : Z) : Z := this.

Definition decimal (z : Z) : string :=
  DecimalString.NilZero.string_of_int (Z.to_int z).

(** A rendering of a task that keeps its five fields apart. *)
Definition marshal (t : ProcessingTask) : Result bytes :=
  Ok (bytes_of_string
        (ImageID t +:+ "|" +:+ ImagePath t +:+ "|" +:+ TaskFormat t +:+ "|"
         +:+ decimal (Width t) +:+ "|" +:+ decimal (Height t))).

(** A reader of tasks that refuses the empty payload and reads the
    same task from any other. *)
Definition sample_task : ProcessingTask :=
  {| ImageID := "id-1"; ImagePath := "original/id-1.jpg";
     TaskFormat := "jpeg"; Width := 1920; Height := 1080 |}.
Definition unmarshal (b : bytes) : Result ProcessingTask :=
  match b with
  | [] => Err (External "unexpected end of JSON input")
  | _ => Ok sample_task
  end.

Definition empty : World :=
  {| images := []; files := ∅; topic := []; partitions := [0; 1];
     counters := []; tick := 0 |}.

Definition Upload (o : Oracle) :=
  service.Upload o cfg decode decode decode marshal.
Definition ProcessImage (o : Oracle) :=
  service.ProcessImage o cfg decode decode decode encodeq encode encode kernel side.

Definition content : bytes := [Byte.x01; Byte.x02; Byte.x03].

(** The row of image id-1 in a given status, and worlds that hold it,
    without and with the original blob. *)
Definition row (s : ProcessingStatus) : Image :=
  {| ID := "id-1"; OriginalPath := "original/id-1.jpg";
     ProcessedPath := ""; ThumbnailPath := "";
     Status := s; Format := "jpeg";
     OriginalWidth := 1920; OriginalHeight := 1080;
     ProcessedWidth := 0; ProcessedHeight := 0;
     CreatedAt := 2; UpdatedAt := 2 |}.

Definition registered (s : ProcessingStatus) : World :=
  {| images := [row s]; files := ∅; topic := []; partitions := [0; 1];
     counters := []; tick := 0 |}.

Definition stored (s : ProcessingStatus) : World :=
  {| images := [row s]; files := {[ "original/id-1.jpg" := content ]};
     topic := []; partitions := [0; 1]; counters := []; tick := 0 |}.

Definition photo (name : string) (size : Z) : service.FileHeader :=
  {| service.Filename := name; service.Size := size |}.

(** The row [Upload] makes for photo.jpeg. *)
Definition row_jpeg : Image :=
  {| ID := "id-1"; OriginalPath := "original/id-1.jpeg";
     ProcessedPath := ""; ThumbnailPath := "";
     Status := StatusPending; Format := "jpeg";
     OriginalWidth := 1920; OriginalHeight := 1080;
     ProcessedWidth := 0; ProcessedHeight := 0;
     CreatedAt := 2; UpdatedAt := 2 |}.

(** Answers of the outside to the consumer: a message with an empty
    payload, a message with a task, a fetch that fails. *)
Definition message (payload : bytes) : kafkago.Message :=
  {| kafkago.Partition := 0; kafkago.Offset := 7;
     kafkago.Key := bytes_of_string "id-1"; kafkago.Value := payload |}.
Definition round_of (payload : bytes) : kafka.Round :=
  {| kafka.ctx_done := false; kafka.fetched := Ok (message payload);
     kafka.commit_result := None |}.
Definition broken_fetch : kafka.Round :=
  {| kafka.ctx_done := false;
     kafka.fetched := Err (External "connection reset");
     kafka.commit_result := None |}.

(** Removing, checking and listing never fail. *)
Definition quiet : MoreFaults :=
  {| fs_remove := fun _ => None; fs_stat := fun _ => None;
     pg_scan := fun _ => None; pg_rows := fun _ => None |}.

(** No file can be removed. *)
Definition sticky : MoreFaults :=
  {| fs_remove := fun _ => Some (External "permission denied");
     fs_stat := fun _ => None;
     pg_scan := fun _ => None; pg_rows := fun _ => None |}.

(** A second image, older than id-1. *)
Definition row2 : Image :=
  {| ID := "id-2"; OriginalPath := "original/id-2.png";
     ProcessedPath := "processed/id-2.png"; ThumbnailPath := "thumbnail/id-2.png";
     Status := StatusCompleted; Format := "png";
     OriginalWidth := 640; OriginalHeight := 480;
     ProcessedWidth := 800; ProcessedHeight := 800;
     CreatedAt := 1; UpdatedAt := 9 |}.

(** A store with the three blobs of id-2 and the original of id-1, and
    a registry with both rows. *)
Definition library : World :=
  {| images := [row2; row StatusPending];
     files := {[ "original/id-2.png" := content;
                 "processed/id-2.png" := content;
                 "thumbnail/id-2.png" := content;
                 "original/id-1.jpg" := content ]};
     topic := []; partitions := [0; 1]; counters := []; tick := 0 |}.

(** An environment that sets two variables, parsers that read nothing,
    a split at no place and a trim that removes nothing. *)
Definition environment (key : string) : string :=
  if String.eqb key "KAFKA_BROKERS" then "kafka-1:9092"
  else if String.eqb key "STORAGE_BASE_PATH" then "/var/lib/images"
  else "".
Definition no_number (s : string) : Result Z := Err (External "invalid syntax").
Definition no_bool (s : string) : Result bool := Err (External "invalid syntax").
Definition whole (s sep : string) : list string := [s].
Definition untrimmed (s : string) : string := s.

(** The brokers refuse every write. *)
Definition kafka_down : Oracle :=
  {| pg_error := fun _ => None;
     fs_save := fun _ => SaveOk;
     fs_open := fun _ => None;
     fs_temp := fun _ => None;
     kafka_error := fun _ => Some (External "broker not available");
     time_Now := fun n => Z.of_nat n;
     uuid_New := fun _ => "id-1" |}.

(** A decoder that finds no picture. *)
Definition no_decode (b : bytes) : Result image.Image :=
  Err (External "invalid format").

(** A decoder that finds a picture 0 wide and 1080 high. *)
Definition flat_decode (b : bytes) : Result image.Image :=
  Ok {| image.Dx := 0; image.Dy := 1080; image.Pix := [] |}.

(** The reader refuses the commit of the message it has delivered. *)
Definition refused (payload : bytes) : kafka.Round :=
  {| kafka.ctx_done := false; kafka.fetched := Ok (message payload);
     kafka.commit_result := Some (External "broker not available") |}.

(** The task of a second image. *)
Definition second_task : ProcessingTask :=
  {| ImageID := "id-2"; ImagePath := "original/id-2.png";
     TaskFormat := "png"; Width := 640; Height := 480 |}.

(** A query without parameters, and a parser of the numbers 5 and -5. *)
Definition no_query (name : string) : string := "".
Definition atoi (s : string) : Result Z :=
  if String.eqb s "5" then Ok 5
  else if String.eqb s "-5" then Ok (-5)
  else Err (External "invalid syntax").

End Fixture.

(** ** Vocabulary of the properties *)

Import domain.

(** The columns of a row that are written when the image is ingested. *)
Definition ingested (i : Image)
  : string * string * ImageFormat * Z * Z * Z :=
  (ID i, OriginalPath i, Format i, OriginalWidth i, OriginalHeight i, CreatedAt i).

(** The status the registry holds for an id, if it has a row for it. *)
Definition status_of (id : string) (w : World) : option ProcessingStatus :=
  option_map Status (find (repo.has_id id) (images w)).

(** A row whose status went from [s] to [s'] was not put back to pending. *)
Definition stays_out_of_pending (s s' : ProcessingStatus) : bool :=
  match s' with
  | StatusPending => match s with StatusPending => true | _ => false end
  | _ => true
  end.

(** One row before and after an operation: the same id, not put back
    to pending, and moved forward if it was pending or processing. *)
Definition row_step (row row' : Image) : Prop :=
  ID row' = ID row /\
  stays_out_of_pending (Status row) (Status row') = true /\
  terminal (Status row) || forward (Status row) (Status row') = true.

(** The extension [getExtension] gives to the format [parseFormat]
    reads from an extension. *)
Definition canonical_ext (ext : string) : string :=
  if String.eqb ext ".jpeg" then ".jpg" else ext.

(** No two rows of the table have the same id. *)
Definition unique_ids (w : World) : Prop := NoDup (map ID (images w)).

(** [a] is listed before [b]: it is not older. *)
Definition newest_first (a b : Image) : Prop := CreatedAt b <= CreatedAt a.

(** The paths a row names. *)
Definition blob_paths (row : Image) : list string :=
  [OriginalPath row; ProcessedPath row; ThumbnailPath row].

(** The two paths a run of the processor writes to. *)
Definition result_paths (task : ProcessingTask) : list string :=
  [filepath_Join "processed" (ImageID task +:+ service.getExtension (TaskFormat task));
   filepath_Join "thumbnail" (ImageID task +:+ service.getExtension (TaskFormat task))].

(** The messages of the failures of [Upload] that come after the blob
    was written and before the row is. *)
Definition after_blob_messages : list string :=
  [ "failed to decode image"; "invalid image"; "failed to create image record" ].

(** The calls of CommitMessages in a trace. *)
Definition is_commit (ev : kafka.Event) : bool :=
  match ev with
  | kafka.EvCommit _ _ => true
  | _ => false
  end.

(** A turn of the consumer loop that does not end it: the context is
    not done, a message is fetched, and its commit succeeds unless the
    message does not deserialize. *)
Definition passes (json_Unmarshal : bytes -> Result ProcessingTask)
    (r : kafka.Round) : Prop :=
  kafka.ctx_done r = false /\
  exists msg, kafka.fetched r = Ok msg /\
              (kafka.commit_result r = None \/
               exists e, json_Unmarshal (kafkago.Value msg) = Err e).

(** The calls in a trace, by kind and in their order: the messages
    FetchMessage returned, the messages CommitMessages was called
    with, those among them whose commit the reader accepted, and the
    tasks the processor was called with. *)
Definition fetches (tr : list kafka.Event) : list kafkago.Message :=
  flat_map (fun ev => match ev with kafka.EvFetch m => [m] | _ => [] end) tr.
Definition commits (tr : list kafka.Event) : list kafkago.Message :=
  flat_map (fun ev => match ev with kafka.EvCommit m _ => [m] | _ => [] end) tr.
Definition acknowledged (tr : list kafka.Event) : list kafkago.Message :=
  flat_map (fun ev => match ev with kafka.EvCommit m None => [m] | _ => [] end) tr.
Definition processed (tr : list kafka.Event) : list ProcessingTask :=
  flat_map (fun ev => match ev with kafka.EvProcess t _ => [t] | _ => [] end) tr.

(** The tasks of the messages that deserialize, in the order of the
    messages. *)
Definition tasks_of (json_Unmarshal : bytes -> Result ProcessingTask)
    (msgs : list kafkago.Message) : list ProcessingTask :=
  flat_map (fun m => match json_Unmarshal (kafkago.Value m) with
                     | Ok t => [t]
                     | Err _ => []
                     end) msgs.

(** The counters [Balance] works on: those the writer holds, or new
    ones when their number is not the number of partitions. *)
Definition counters_in_use (w : World) : list kafkago.leastBytesCounter :=
  if Nat.eqb (length (partitions w)) (length (counters w)) then counters w
  else kafkago.makeCounters (partitions w).

(** [p] is the partition of a counter that no counter is below. *)
Definition least_loaded (cs : list kafkago.leastBytesCounter) (p : Z) : Prop :=
  exists c, In c cs /\ kafkago.partition c = p /\
            Forall (fun c' => kafkago.nbytes c <= kafkago.nbytes c') cs.

(** The four messages of the failure paths that mark the row failed. *)
Definition marking_messages : list string :=
  [ "failed to read original image"; "failed to decode image";
    "failed to save processed image"; "failed to save thumbnail" ].

(** The row as [ProcessImage] holds it after marking it processing,
    failed and completed. *)
Definition as_processing (t : Z) (img : Image) : Image :=
  set_UpdatedAt t (set_Status StatusProcessing img).
Definition as_failed (t : Z) (img : Image) : Image :=
  set_UpdatedAt t (set_Status StatusFailed img).
Definition as_completed (t : Z) (task : ProcessingTask) (processedImg : image.Image)
    (img : Image) : Image :=
  set_UpdatedAt t
    (set_Processed
       (filepath_Join "processed" (ImageID task +:+ service.getExtension (TaskFormat task)))
       (filepath_Join "thumbnail" (ImageID task +:+ service.getExtension (TaskFormat task)))
       (image.Dx processedImg) (image.Dy processedImg)
       (set_Status StatusCompleted img)).

(** The message [SendTask] writes for a task whose serialization is [data]. *)
Definition message_of (task : ProcessingTask) (data : bytes) : kafkago.Message :=
  {| kafkago.Partition := 0; kafkago.Offset := 0;
     kafkago.Key := bytes_of_string (ImageID task);
     kafkago.Value := data |}.

(** The row and the task [Upload] builds. *)
Definition uploaded_row (id ext : string) (format : ImageFormat)
    (img : image.Image) (now : Z) : Image :=
  {| ID := id; OriginalPath := filepath_Join "original" (id +:+ ext);
     ProcessedPath := ""; ThumbnailPath := "";
     Status := StatusPending; Format := format;
     OriginalWidth := image.Dx img; OriginalHeight := image.Dy img;
     ProcessedWidth := 0; ProcessedHeight := 0;
     CreatedAt := now; UpdatedAt := now |}.

Definition task_of (row : Image) : ProcessingTask :=
  {| ImageID := ID row; ImagePath := OriginalPath row;
     TaskFormat := Format row;
     Width := OriginalWidth row; Height := OriginalHeight row |}.

(** ** Frame lemmas: what each call leaves alone *)

Section Frames.

Variable o : Oracle.

Lemma next_images w : images (next w) = images w.
Proof. reflexivity. Qed.

Lemma GetByID_world id w r w' :
  repo.GetByID o id w = (r, w') -> w' = next w.
Proof.
  unfold repo.GetByID. intros H.
  destruct (pg_error o (tick w)); [congruence|].
  destruct (find _ _); congruence.
Qed.

Lemma GetByID_Ok id w img w' :
  repo.GetByID o id w = (Ok img, w') ->
  find (repo.has_id id) (images w) = Some img /\ pg_error o (tick w) = None.
Proof.
  unfold repo.GetByID. intros H.
  destruct (pg_error o (tick w)); [congruence|].
  destruct (find _ _); [|congruence].
  split; congruence.
Qed.

Lemma Now_world t w w' : repo.Now o w = (t, w') -> w' = next w.
Proof. unfold repo.Now. congruence. Qed.

Lemma Update_cases img w r w' :
  repo.Update o img w = (r, w') ->
  (exists e, pg_error o (tick w) = Some e /\
             r = Some (Wrap "failed to update image" e) /\ w' = next w)
  \/ (pg_error o (tick w) = None /\ r = None /\
      w' = set_images (map (repo.updateWhere img) (images w)) (next w)).
Proof.
  unfold repo.Update. intros H.
  destruct (pg_error o (tick w)) as [e|].
  - left. exists e. repeat split; congruence.
  - right. repeat split; congruence.
Qed.

Lemma updateWhere_ingested img row :
  ingested (repo.updateWhere img row) = ingested row.
Proof. unfold repo.updateWhere. destruct (repo.has_id _ _); reflexivity. Qed.

Lemma Update_ingested img w :
  map ingested (images (snd (repo.Update o img w))) = map ingested (images w).
Proof.
  unfold repo.Update. destruct (pg_error o (tick w)); simpl; [reflexivity|].
  rewrite map_map. apply map_ext. intros row. apply updateWhere_ingested.
Qed.

Lemma Save_images path data w r w' :
  repo.Save o path data w = (r, w') -> images w' = images w.
Proof.
  unfold repo.Save. intros H.
  destruct (fs_save o (tick w)); inversion H; reflexivity.
Qed.

Lemma Read_world path w r w' :
  repo.Read o path w = (r, w') -> w' = next w.
Proof.
  unfold repo.Read. intros H.
  destruct (files w !! path); [destruct (fs_open o (tick w))|]; congruence.
Qed.

End Frames.

(** ** The outcomes of [ProcessImage] *)

Section Outcomes.

Variable o : Oracle.
Variable cfg : config.ImageConfig.
Variable jpeg_Decode png_Decode gif_Decode : bytes -> Result image.Image.
Variable jpeg_Encode : image.Image -> Z -> Result bytes.
Variable png_Encode gif_Encode : image.Image -> Result bytes.
Variable lanczos3 : Z -> Z -> image.Image -> bytes.
Variable scaled_side : Z -> Z -> Z -> Z.

Local Abbreviation saveImage :=
  (service.saveImage o jpeg_Encode png_Encode gif_Encode).
Local Abbreviation decodeImage :=
  (service.decodeImage jpeg_Decode png_Decode gif_Decode).
Local Abbreviation ProcessImage :=
  (service.ProcessImage o cfg jpeg_Decode png_Decode gif_Decode
     jpeg_Encode png_Encode gif_Encode lanczos3 scaled_side).

Lemma saveImage_images path img format w r w' :
  saveImage path img format w = (r, w') -> images w' = images w.
Proof.
  unfold service.saveImage. intros H.
  destruct (fs_temp o (tick w)); [inversion H; reflexivity|].
  match type of H with
  | match ?enc with _ => _ end = _ => destruct enc
  end.
  - apply Save_images in H. exact H.
  - inversion H. reflexivity.
Qed.

Lemma markFailed_outcome img msg e w r w' :
  service.markFailed o img msg e w = (r, w') ->
  r = Some (Wrap msg e) /\
  exists t,
    images w' = map (repo.updateWhere (as_failed t img)) (images w)
    \/ (images w' = images w /\ pg_error o (Nat.pred (tick w')) <> None).
Proof.
  unfold service.markFailed, repo.Now. intros H.
  destruct (repo.Update o _ (next w)) as [r1 w1] eqn:HU.
  inversion H; subst; clear H. split; [reflexivity|].
  exists (time_Now o (tick w)).
  apply Update_cases in HU. destruct HU as [(e1 & Hpg & _ & ->)|(_ & _ & ->)].
  - right. split; [reflexivity|]. simpl. simpl in Hpg. congruence.
  - left. reflexivity.
Qed.

(** Every run of [ProcessImage] is of one of these kinds. *)
Lemma ProcessImage_outcome task w r w' :
  ProcessImage task w = (r, w') ->
  (exists e, r = Some (Wrap "failed to get image" e) /\ w' = next w)
  \/ exists img t1,
       find (repo.has_id (ImageID task)) (images w) = Some img /\
       let rows := map (repo.updateWhere (as_processing t1 img)) (images w) in
       (   (exists e, r = Some (Wrap "failed to update status" e) /\
                      images w' = images w /\ files w' = files w)
        \/ (exists msg e t2,
               r = Some (Wrap msg e) /\ In msg marking_messages /\
               (images w' = map (repo.updateWhere (as_failed t2 (as_processing t1 img))) rows
                \/ (images w' = rows /\ pg_error o (Nat.pred (tick w')) <> None)))
        \/ (exists e, r = Some (Wrap "failed to update image record" e) /\
                      images w' = rows)
        \/ (r = None /\
            exists data originalImg t3,
              files w !! ImagePath task = Some data /\
              decodeImage data (TaskFormat task) = Ok originalImg /\
              images w' =
                map (repo.updateWhere
                       (as_completed t3 task
                          (resize.Resize lanczos3 scaled_side
                             (uint_of_int (config.ProcessedWidth cfg))
                             (uint_of_int (config.ProcessedHeight cfg))
                             originalImg)
                          (as_processing t1 img)))
                    rows)).
Proof.
  unfold service.ProcessImage. intros H.
  destruct (repo.GetByID o (ImageID task) w) as [[img|e] w1] eqn:HG.
  2:{ left. exists e. apply GetByID_world in HG. inversion H; subst. auto. }
  right. pose proof (GetByID_world _ _ _ _ _ HG) as ->.
  apply GetByID_Ok in HG. destruct HG as [Hfind _].
  exists img, (time_Now o (tick (next w))). split; [exact Hfind|].
  cbv zeta. unfold repo.Now in H.
  fold (as_processing (time_Now o (tick (next w))) img) in *.
  set (p := as_processing (time_Now o (tick (next w))) img) in *.
  destruct (repo.Update o p (next (next w))) as [[e|] w2] eqn:HU.
  { left. exists e. apply Update_cases in HU.
    destruct HU as [(e1 & _ & Hr & ->)|(_ & Hr & _)]; [|discriminate].
    inversion H; subst. auto. }
  apply Update_cases in HU.
  destruct HU as [(e1 & _ & Hr & _)|(_ & _ & ->)]; [discriminate|].
  right.
  destruct (repo.Read o (ImagePath task) _) as [[data|e] w3] eqn:HR.
  2:{ left. pose proof (Read_world _ _ _ _ _ HR) as ->.
      apply markFailed_outcome in H. destruct H as [-> [t2 Ht]].
      exists "failed to read original image", e, t2.
      split; [reflexivity|]. split; [simpl; auto|]. exact Ht. }
  pose proof (Read_world _ _ _ _ _ HR) as ->.
  assert (Hdata : files w !! ImagePath task = Some data).
  { unfold repo.Read in HR. simpl in HR.
    destruct (files w !! ImagePath task); [|discriminate].
    destruct (fs_open o _); congruence. }
  clear HR.
  destruct (decodeImage data (TaskFormat task)) as [originalImg|e] eqn:HD.
  2:{ left. apply markFailed_outcome in H. destruct H as [-> [t2 Ht]].
      exists "failed to decode image", e, t2.
      split; [reflexivity|]. split; [simpl; auto|]. exact Ht. }
  destruct (saveImage _ _ _ _) as [[e|] w4] eqn:HS1 in H.
  { left. apply saveImage_images in HS1.
    apply markFailed_outcome in H. destruct H as [-> [t2 Ht]].
    exists "failed to save processed image", e, t2.
    split; [reflexivity|]. split; [simpl; auto|].
    rewrite HS1 in Ht. exact Ht. }
  apply saveImage_images in HS1.
  destruct (saveImage _ _ _ w4) as [[e|] w5] eqn:HS2 in H.
  { left. apply saveImage_images in HS2.
    apply markFailed_outcome in H. destruct H as [-> [t2 Ht]].
    exists "failed to save thumbnail", e, t2.
    split; [reflexivity|]. split; [simpl; auto 6|].
    rewrite HS2, HS1 in Ht. exact Ht. }
  apply saveImage_images in HS2.
  right.
  match type of H with
  | context [repo.Update o ?c ?wx] =>
      destruct (repo.Update o c wx) as [[e|] w6] eqn:HU2
  end.
  - left. exists e. apply Update_cases in HU2.
    destruct HU2 as [(e1 & _ & _ & ->)|(_ & Hr & _)]; [|discriminate].
    inversion H; subst. split; [reflexivity|].
    simpl. rewrite HS2, HS1. reflexivity.
  - right. apply Update_cases in HU2.
    destruct HU2 as [(e1 & _ & Hr & _)|(_ & _ & ->)]; [discriminate|].
    inversion H; subst. split; [reflexivity|].
    exists data, originalImg, (time_Now o (tick w5)).
    split; [exact Hdata|]. split; [exact HD|].
    simpl. rewrite HS2, HS1. reflexivity.
Qed.

End Outcomes.

(** ** The outcomes of [Upload] *)

Section UploadOutcomes.

Variable o : Oracle.
Variable cfg : config.ImageConfig.
Variable jpeg_Decode png_Decode gif_Decode : bytes -> Result image.Image.
Variable json_Marshal : ProcessingTask -> Result bytes.

Local Abbreviation Upload :=
  (service.Upload o cfg jpeg_Decode png_Decode gif_Decode json_Marshal).

Lemma SendTask_outcome task w r w' :
  kafka.SendTask o json_Marshal task w = (r, w') ->
  images w' = images w /\ files w' = files w /\
  (r = None ->
   exists data p, json_Marshal task = Ok data /\
                  topic w' = topic w ++ [(p, message_of task data)]).
Proof.
  unfold kafka.SendTask, kafka.WriteMessages. intros H.
  destruct (json_Marshal task) as [data|e].
  2:{ inversion H; subst. repeat split; try reflexivity. discriminate. }
  destruct (kafkago.Balance _ _ _) as [[p cs]|].
  - destruct (kafka_error o (tick w)); inversion H; subst;
      (repeat split; try reflexivity); [discriminate|].
    intros _. exists data, p. split; reflexivity.
  - inversion H; subst. repeat split; try reflexivity. discriminate.
Qed.

Lemma Create_outcome img w r w' :
  repo.Create o img w = (r, w') ->
  files w' = files w /\ topic w' = topic w /\
  ((r = None /\ images w' = images w ++ [img] /\
    existsb (repo.has_id (ID img)) (images w) = false)
   \/ (r <> None /\ images w' = images w)).
Proof.
  unfold repo.Create. intros H.
  destruct (pg_error o (tick w)).
  - inversion H; subst. repeat split; try reflexivity. right. split; [discriminate|reflexivity].
  - destruct (existsb _ _) eqn:E; inversion H; subst; repeat split; try reflexivity.
    + right. split; [discriminate|reflexivity].
    + left. repeat split; reflexivity.
Qed.

Lemma Save_outcome path data w r w' :
  repo.Save o path data w = (r, w') ->
  images w' = images w /\ topic w' = topic w /\
  (r = None -> files w' = <[path := data]> (files w)).
Proof.
  unfold repo.Save. intros H.
  destruct (fs_save o (tick w)); inversion H; subst;
    repeat split; try reflexivity; discriminate.
Qed.

(** A successful [Upload]: what went in, what was stored, what was sent. *)
Lemma Upload_Ok file header w img w' :
  Upload file header w = (Ok img, w') ->
  exists format orig now data p,
    let id := uuid_New o (tick w) in
    let ext := strings_ToLower (filepath_Ext (service.Filename header)) in
    service.Size header <= config.MaxFileSize cfg /\
    service.parseFormat ext = Ok format /\
    service.decodeImage jpeg_Decode png_Decode gif_Decode file format = Ok orig /\
    img = uploaded_row id ext format orig now /\
    json_Marshal (task_of img) = Ok data /\
    images w' = images w ++ [img] /\
    existsb (repo.has_id (ID img)) (images w) = false /\
    files w' = <[OriginalPath img := file]> (files w) /\
    topic w' = topic w ++ [(p, message_of (task_of img) data)].
Proof.
  unfold service.Upload, repo.GenerateID, service.decodeImageForDimensions.
  intros H.
  destruct (config.MaxFileSize cfg <? service.Size header) eqn:Hsize;
    [discriminate|].
  apply Z.ltb_ge in Hsize.
  destruct (service.parseFormat _) as [format|] eqn:Hfmt; [|discriminate].
  destruct (repo.Save o _ file (next w)) as [[e|] w1] eqn:HS; [discriminate|].
  apply Save_outcome in HS. destruct HS as (HSi & HSt & HSf).
  specialize (HSf eq_refl).
  destruct (service.decodeImage _ _ _ file format) as [orig|] eqn:HD;
    [|discriminate].
  unfold repo.Now in H.
  match type of H with
  | context [Validate ?row] => set (row0 := row) in *
  end.
  destruct (Validate row0); [discriminate|].
  destruct (repo.Create o row0 (next w1)) as [[e|] w2] eqn:HC; [discriminate|].
  apply Create_outcome in HC. destruct HC as (HCf & HCt & HCi).
  destruct HCi as [(_ & HCi & Hfresh)|[Hne _]]; [|congruence].
  destruct (kafka.SendTask o json_Marshal _ w2) as [[e|] w3] eqn:HK;
    [discriminate|].
  apply SendTask_outcome in HK. destruct HK as (HKi & HKf & HKt).
  destruct (HKt eq_refl) as (data & p & HM & Htopic).
  inversion H; subst img w3; clear H.
  exists format, orig, (time_Now o (tick w1)), data, p. cbv zeta.
  repeat split; try assumption; try reflexivity.
  - rewrite HKi, HCi. simpl. rewrite HSi. reflexivity.
  - simpl in Hfresh. rewrite HSi in Hfresh. exact Hfresh.
  - rewrite HKf, HCf. simpl. rewrite HSf. reflexivity.
  - rewrite Htopic, HCt. simpl. rewrite HSt. reflexivity.
Qed.

(** Whatever [Upload] does, the rows that were there stay as they are,
    and a row it adds is pending. *)
Lemma Upload_images file header w :
  exists new, images (snd (Upload file header w)) = images w ++ new /\
              Forall (fun row => Status row = StatusPending) new.
Proof.
  destruct (Upload file header w) as [r w'] eqn:H. simpl.
  destruct r as [img|e].
  - apply Upload_Ok in H.
    destruct H as (format & orig & now & data & p & H). cbv zeta in H.
    destruct H as (_ & _ & _ & Himg & _ & Hi & _).
    exists [img]. split; [exact Hi|]. constructor; [|constructor].
    subst img. reflexivity.
  - revert H.
    unfold service.Upload, repo.GenerateID, service.decodeImageForDimensions.
    intros H.
    destruct (config.MaxFileSize cfg <? service.Size header).
    { inversion H; subst. exists []. rewrite app_nil_r. auto. }
    destruct (service.parseFormat _) as [format|].
    2:{ inversion H; subst. exists []. rewrite app_nil_r. auto. }
    destruct (repo.Save o _ file (next w)) as [[e1|] w1] eqn:HS.
    { apply Save_outcome in HS. destruct HS as (HSi & _).
      inversion H; subst. exists []. rewrite app_nil_r, HSi. auto. }
    apply Save_outcome in HS. destruct HS as (HSi & _).
    destruct (service.decodeImage _ _ _ file format) as [orig|].
    2:{ inversion H; subst. exists []. rewrite app_nil_r, HSi. auto. }
    unfold repo.Now in H.
    match type of H with
    | context [Validate ?row] => set (row0 := row) in *
    end.
    destruct (Validate row0).
    { inversion H; subst. exists []. rewrite app_nil_r. simpl. rewrite HSi. auto. }
    destruct (repo.Create o row0 (next w1)) as [[e1|] w2] eqn:HC.
    { apply Create_outcome in HC. destruct HC as (_ & _ & HCi).
      destruct HCi as [(Hn & _)|[_ HCi]]; [discriminate|].
      inversion H; subst. exists []. rewrite app_nil_r, HCi. simpl.
      rewrite HSi. auto. }
    apply Create_outcome in HC. destruct HC as (_ & _ & HCi).
    destruct HCi as [(_ & HCi & _)|[Hn _]]; [|congruence].
    destruct (kafka.SendTask o json_Marshal _ w2) as [[e1|] w3] eqn:HK;
      [|discriminate].
    apply SendTask_outcome in HK. destruct HK as (HKi & _).
    inversion H; subst. exists [row0]. rewrite HKi, HCi. simpl. rewrite HSi.
    split; [reflexivity|]. constructor; [reflexivity|constructor].
Qed.

End UploadOutcomes.

(** ** Rows under UPDATE *)

Lemma has_id_ID id row : repo.has_id id row = true -> ID row = id.
Proof. unfold repo.has_id. apply String.eqb_eq. Qed.

Lemma find_has_id id rows row :
  find (repo.has_id id) rows = Some row -> ID row = id.
Proof. intros H. apply find_some in H. apply has_id_ID, H. Qed.

Lemma map_updateWhere_ingested img rows :
  map ingested (map (repo.updateWhere img) rows) = map ingested rows.
Proof.
  rewrite map_map. apply map_ext. intros row. apply updateWhere_ingested.
Qed.

(** After an UPDATE through an image with this id, the row found under
    the id has the status of that image. *)
Lemma find_updateWhere id img rows row :
  ID img = id ->
  find (repo.has_id id) rows = Some row ->
  find (repo.has_id id) (map (repo.updateWhere img) rows)
  = Some (repo.updateRow img row).
Proof.
  intros Hid. induction rows as [|r rows IH]; simpl; [discriminate|].
  destruct (repo.has_id id r) eqn:Hr.
  - intros [= ->].
    assert (Hu : repo.updateWhere img row = repo.updateRow img row).
    { unfold repo.updateWhere. rewrite Hid, Hr. reflexivity. }
    rewrite Hu.
    assert (Hk : repo.has_id id (repo.updateRow img row) = true) by exact Hr.
    rewrite Hk. reflexivity.
  - assert (Hu : repo.updateWhere img r = r).
    { unfold repo.updateWhere. rewrite Hid, Hr. reflexivity. }
    rewrite Hu, Hr. exact IH.
Qed.

Lemma ID_as_processing t img : ID (as_processing t img) = ID img.
Proof. reflexivity. Qed.

Lemma ID_as_failed t img : ID (as_failed t img) = ID img.
Proof. reflexivity. Qed.

Lemma ID_as_completed t task p img : ID (as_completed t task p img) = ID img.
Proof. reflexivity. Qed.

(** Two lists of rows, row by row. *)
Lemma Forall2_map_r {A B} (R : A -> B -> Prop) (f : A -> B) (l : list A) :
  (forall x, R x (f x)) -> Forall2 R l (map f l).
Proof. intros H. induction l; simpl; constructor; auto. Qed.

Lemma Forall2_app_same {A} (R : A -> A -> Prop) (l : list A) :
  (forall x, R x x) -> Forall2 R l l.
Proof. intros H. induction l; constructor; auto. Qed.

Lemma row_step_refl row : row_step row row.
Proof. unfold row_step. destruct (Status row); auto. Qed.

Lemma row_step_written row row' :
  ID row' = ID row -> Status row' <> StatusPending -> row_step row row'.
Proof.
  unfold row_step. intros Hid Hs. split; [exact Hid|].
  destruct (Status row), (Status row'); simpl; auto; congruence.
Qed.

Lemma row_step_updateWhere img row :
  Status img <> StatusPending -> row_step row (repo.updateWhere img row).
Proof.
  intros Hs. unfold repo.updateWhere.
  destruct (repo.has_id (ID img) row); [|apply row_step_refl].
  apply row_step_written; [reflexivity|exact Hs].
Qed.

Lemma row_step_updateWhere2 img1 img2 row :
  Status img1 <> StatusPending -> Status img2 <> StatusPending ->
  row_step row (repo.updateWhere img2 (repo.updateWhere img1 row)).
Proof.
  intros H1 H2. unfold repo.updateWhere at 1.
  destruct (repo.has_id (ID img2) _); [|apply row_step_updateWhere, H1].
  apply row_step_written; [|exact H2].
  simpl. unfold repo.updateWhere. destruct (repo.has_id _ _); reflexivity.
Qed.

(** ** Sizes after [Resize] *)

Lemma uint_of_int_cases x :
  is_int x ->
  (0 <= x /\ uint_of_int x = x) \/ (x < 0 /\ uint_of_int x = x + 2 ^ 64).
Proof.
  unfold is_int, uint_of_int. intros [Hlo Hhi].
  destruct (Z_lt_le_dec x 0) as [Hneg|Hpos].
  - right. split; [exact Hneg|].
    symmetry. apply (Z.mod_unique x (2 ^ 64) (-1)); lia.
  - left. split; [exact Hpos|]. apply Z.mod_small. lia.
Qed.

(** An [int] converted to [uint] and back is the same [int]. *)
Lemma int_uint_int x : is_int x -> int_of_uint (uint_of_int x) = x.
Proof.
  intros Hx. pose proof Hx as [Hlo Hhi].
  destruct (uint_of_int_cases x Hx) as [[Hpos ->]|[Hneg ->]]; unfold int_of_uint.
  - destruct (x <? 2 ^ 63) eqn:E; [reflexivity|]. apply Z.ltb_ge in E. lia.
  - destruct (x + 2 ^ 64 <? 2 ^ 63) eqn:E; [apply Z.ltb_lt in E; lia|lia].
Qed.

Lemma uint_nonzero x : x <> 0 -> is_int x -> uint_of_int x <> 0.
Proof.
  intros Hnz Hx. pose proof Hx as [Hlo Hhi].
  destruct (uint_of_int_cases x Hx) as [[Hpos ->]|[Hneg ->]]; lia.
Qed.

Lemma Resize_bounds kernel side pw ph img :
  pw <> 0 -> is_int pw -> ph <> 0 -> is_int ph ->
  0 < image.Dx img -> 0 < image.Dy img ->
  let out := resize.Resize kernel side (uint_of_int pw) (uint_of_int ph) img in
  image.Dx out = pw /\ image.Dy out = ph.
Proof.
  intros Hw Hiw Hh Hih Hx Hy. cbv zeta. unfold resize.Resize.
  pose proof (uint_nonzero pw Hw Hiw) as Hnw.
  pose proof (uint_nonzero ph Hh Hih) as Hnh.
  apply Z.eqb_neq in Hnw, Hnh. rewrite Hnw, Hnh.
  rewrite !int_uint_int by assumption.
  destruct ((pw =? image.Dx img) && (ph =? image.Dy img)) eqn:Esame.
  - apply andb_prop in Esame. destruct Esame as [E1 E2].
    apply Z.eqb_eq in E1, E2. auto.
  - assert (E : (image.Dx img <=? 0) || (image.Dy img <=? 0) = false).
    { apply orb_false_intro; apply Z.leb_gt; assumption. }
    rewrite E. simpl. auto.
Qed.

(** An image without pixels comes back from [Resize] as it is. *)
Lemma Resize_no_pixels kernel side width height img :
  (0 <? image.Dx img) && (0 <? image.Dy img) = false ->
  resize.Resize kernel side width height img = img.
Proof.
  intros H. unfold resize.Resize.
  match goal with |- (if ?same then _ else _) = _ => destruct same end;
    [reflexivity|].
  assert (E : (image.Dx img <=? 0) || (image.Dy img <=? 0) = true).
  { apply andb_false_iff in H. apply orb_true_iff.
    destruct H as [H|H]; apply Z.ltb_ge in H; [left|right]; apply Z.leb_le; exact H. }
  rewrite E. reflexivity.
Qed.

(** ** Properties of the registry and the processing worker *)

Section Pipeline.

Variable o : Oracle.
Variable cfg : config.ImageConfig.
Variable jpeg_Decode png_Decode gif_Decode : bytes -> Result image.Image.
Variable jpeg_Encode : image.Image -> Z -> Result bytes.
Variable png_Encode gif_Encode : image.Image -> Result bytes.
Variable lanczos3 : Z -> Z -> image.Image -> bytes.
Variable scaled_side : Z -> Z -> Z -> Z.
Variable json_Marshal : ProcessingTask -> Result bytes.

Local Abbreviation decodeImage :=
  (service.decodeImage jpeg_Decode png_Decode gif_Decode).
Local Abbreviation ProcessImage :=
  (service.ProcessImage o cfg jpeg_Decode png_Decode gif_Decode
     jpeg_Encode png_Encode gif_Encode lanczos3 scaled_side).
Local Abbreviation Upload :=
  (service.Upload o cfg jpeg_Decode png_Decode gif_Decode json_Marshal).

Lemma ProcessImage_ingested task w :
  map ingested (images (snd (ProcessImage task w))) = map ingested (images w).
Proof.
  destruct (ProcessImage task w) as [r w'] eqn:H. simpl.
  apply ProcessImage_outcome in H.
  destruct H as [(e & _ & ->)|(img & t1 & _ & H)]; [reflexivity|].
  cbv zeta in H.
  destruct H as [(e & _ & -> & _)|[(msg & e & t2 & _ & _ & [->|[-> _]])
                |[(e & _ & ->)|(_ & data & orig & t3 & _ & _ & ->)]]];
    rewrite ?map_updateWhere_ingested; reflexivity.
Qed.

(** C9. The columns written at ingestion (id, original_path, format,
    original_width, original_height, created_at) are never changed
    once the row exists: the projection of the table on these columns
    is the same after the registry's Update as before it, whatever
    image Update is given and whether it fails or not; the same holds
    for a whole run of ProcessImage; and Upload leaves every row that
    was there as it is and only appends. *)
Theorem ingestion_columns_never_change :
  (forall img w,
      map ingested (images (snd (repo.Update o img w))) = map ingested (images w))
  /\ (forall task w,
         map ingested (images (snd (ProcessImage task w))) = map ingested (images w))
  /\ (forall file header w,
         exists new, images (snd (Upload file header w)) = images w ++ new).
Proof.
  split; [|split].
  - intros img w. apply Update_ingested.
  - apply ProcessImage_ingested.
  - intros file header w.
    destruct (Upload_images o cfg jpeg_Decode png_Decode gif_Decode
                json_Marshal file header w) as (new & H & _).
    exists new. exact H.
Qed.

(** C1, as amended. Upload and ProcessImage never put a row back to
    pending, and a row that is pending or processing only moves
    forward along pending, processing, completed or failed: after
    ProcessImage every row has its id, is not pending unless it was,
    and, if it was pending or processing, has a status that is not
    behind the one it had; Upload leaves the rows that were there as
    they are and adds pending rows only; the registry's Update leaves
    each row as it is or gives it the status it is handed. (Nothing is
    said of a row that is completed or failed when its task arrives.) *)
Theorem status_moves_forward_from_open_rows :
  (forall task w,
      Forall2 row_step (images w) (images (snd (ProcessImage task w))))
  /\ (forall file header w,
         exists new,
           images (snd (Upload file header w)) = images w ++ new /\
           Forall (fun row => Status row = StatusPending) new)
  /\ (forall img w,
         Forall2 (fun row row' => ID row' = ID row /\
                                  (row' = row \/ Status row' = Status img))
           (images w) (images (snd (repo.Update o img w)))).
Proof.
  split; [|split].
  - intros task w.
    destruct (ProcessImage task w) as [r w'] eqn:H. simpl.
    apply ProcessImage_outcome in H.
    destruct H as [(e & _ & ->)|(img & t1 & _ & H)].
    { apply Forall2_app_same, row_step_refl. }
    cbv zeta in H.
    destruct H as [(e & _ & -> & _)|[(msg & e & t2 & _ & _ & [->|[-> _]])
                  |[(e & _ & ->)|(_ & data & orig & t3 & _ & _ & ->)]]].
    + apply Forall2_app_same, row_step_refl.
    + rewrite map_map. apply Forall2_map_r. intros row.
      apply row_step_updateWhere2; discriminate.
    + apply Forall2_map_r. intros row.
      apply row_step_updateWhere; discriminate.
    + apply Forall2_map_r. intros row.
      apply row_step_updateWhere; discriminate.
    + rewrite map_map. apply Forall2_map_r. intros row.
      apply row_step_updateWhere2; discriminate.
  - intros file header w. apply Upload_images.
  - intros img w. unfold repo.Update.
    destruct (pg_error o (tick w)); simpl.
    + apply Forall2_app_same. auto.
    + apply Forall2_map_r. intros row. unfold repo.updateWhere.
      destruct (repo.has_id (ID img) row); simpl; auto.
Qed.

(** C2, as amended. When ProcessImage returns an error, it is one of
    four kinds. The row could not be read (it is missing, or the
    lookup failed): nothing was written. The write of status
    processing failed: the table is as it was. The last write, of
    status completed, failed: the row is left processing. Otherwise
    the error is a failure to read or decode the original or to save
    one of the two results, and the row was marked failed before the
    error was returned, unless that write failed as well, which leaves
    the row processing. *)
Theorem ProcessImage_error_paths task w e w' :
  ProcessImage task w = (Some e, w') ->
  (exists c, e = Wrap "failed to get image" c /\ images w' = images w)
  \/ (exists c, e = Wrap "failed to update status" c /\ images w' = images w)
  \/ (exists c, e = Wrap "failed to update image record" c /\
                status_of (ImageID task) w' = Some StatusProcessing)
  \/ (exists msg c, e = Wrap msg c /\ In msg marking_messages /\
                    (status_of (ImageID task) w' = Some StatusFailed
                     \/ (status_of (ImageID task) w' = Some StatusProcessing /\
                         pg_error o (Nat.pred (tick w')) <> None))).
Proof.
  intros H. apply ProcessImage_outcome in H.
  destruct H as [(c & [= ->] & ->)|(img & t1 & Hfind & H)].
  { left. exists c. auto. }
  cbv zeta in H.
  pose proof (find_has_id _ _ _ Hfind) as Hid.
  assert (Hp : find (repo.has_id (ImageID task))
                 (map (repo.updateWhere (as_processing t1 img)) (images w))
               = Some (repo.updateRow (as_processing t1 img) img)).
  { apply find_updateWhere; assumption. }
  destruct H as [(c & [= ->] & Hi & _)|[(msg & c & t2 & [= ->] & Hmsg & Hi)
                |[(c & [= ->] & Hi)|(Hr & _)]]]; [| | |discriminate].
  - right; left. exists c. auto.
  - right; right; right. exists msg, c. split; [reflexivity|].
    split; [exact Hmsg|]. unfold status_of.
    destruct Hi as [->|[-> Hpg]].
    + left. erewrite find_updateWhere; [reflexivity|exact Hid|exact Hp].
    + right. rewrite Hp. split; [reflexivity|exact Hpg].
  - right; right; left. exists c. split; [reflexivity|].
    unfold status_of. rewrite Hi, Hp. reflexivity.
Qed.

(** The processor reads the id, the path and the format of a task, and
    not its width and height. *)
Lemma ProcessImage_ignores_task_size task task' w :
  ImageID task' = ImageID task -> ImagePath task' = ImagePath task ->
  TaskFormat task' = TaskFormat task ->
  ProcessImage task' w = ProcessImage task w.
Proof.
  intros H1 H2 H3. unfold service.ProcessImage. rewrite H1, H2, H3. reflexivity.
Qed.

(** C5, as amended. When ProcessImage succeeds, with a configured
    processed width and height above zero (and Go ints), the row of the
    image is completed, and its processed_width and processed_height
    are the configured width and height, whatever the size of the
    original, when the original read from the store decodes to an image
    with pixels; when it decodes to an image without pixels (its width
    or its height is not above zero), the resizer hands that image back
    as it is and the row is completed with the width and height of the
    original. *)
Theorem completed_has_configured_size task w w' :
  0 < config.ProcessedWidth cfg -> is_int (config.ProcessedWidth cfg) ->
  0 < config.ProcessedHeight cfg -> is_int (config.ProcessedHeight cfg) ->
  ProcessImage task w = (None, w') ->
  exists row data orig,
    find (repo.has_id (ImageID task)) (images w') = Some row /\
    Status row = StatusCompleted /\
    files w !! ImagePath task = Some data /\
    decodeImage data (TaskFormat task) = Ok orig /\
    if (0 <? image.Dx orig) && (0 <? image.Dy orig)
    then ProcessedWidth row = config.ProcessedWidth cfg /\
         ProcessedHeight row = config.ProcessedHeight cfg
    else ProcessedWidth row = image.Dx orig /\
         ProcessedHeight row = image.Dy orig.
Proof.
  intros Hw Hiw Hh Hih H. apply ProcessImage_outcome in H.
  destruct H as [(c & Hr & _)|(img & t1 & Hfind & H)]; [discriminate|].
  cbv zeta in H.
  pose proof (find_has_id _ _ _ Hfind) as Hid.
  destruct H as [(c & Hr & _)|[(msg & c & t2 & Hr & _)
                |[(c & Hr & _)|(_ & data & orig & t3 & Hdata & HD & Hi)]]];
    try discriminate.
  eexists. exists data, orig. split.
  { rewrite Hi. apply find_updateWhere; [exact Hid|].
    apply find_updateWhere; [exact Hid|exact Hfind]. }
  split; [reflexivity|]. split; [exact Hdata|]. split; [exact HD|].
  destruct ((0 <? image.Dx orig) && (0 <? image.Dy orig)) eqn:Epix.
  - apply andb_prop in Epix. destruct Epix as [Hx Hy].
    apply Z.ltb_lt in Hx, Hy.
    destruct (Resize_bounds lanczos3 scaled_side
                (config.ProcessedWidth cfg) (config.ProcessedHeight cfg) orig)
      as [Ex Ey]; try assumption; try lia.
    simpl. auto.
  - simpl. rewrite (Resize_no_pixels _ _ _ _ _ Epix). auto.
Qed.

End Pipeline.

(** ** Blobs written by a successful run *)

Section Blobs.

Variable o : Oracle.
Variable cfg : config.ImageConfig.
Variable jpeg_Decode png_Decode gif_Decode : bytes -> Result image.Image.
Variable jpeg_Encode : image.Image -> Z -> Result bytes.
Variable png_Encode gif_Encode : image.Image -> Result bytes.
Variable lanczos3 : Z -> Z -> image.Image -> bytes.
Variable scaled_side : Z -> Z -> Z -> Z.

Local Abbreviation saveImage :=
  (service.saveImage o jpeg_Encode png_Encode gif_Encode).
Local Abbreviation ProcessImage :=
  (service.ProcessImage o cfg jpeg_Decode png_Decode gif_Decode
     jpeg_Encode png_Encode gif_Encode lanczos3 scaled_side).

Lemma saveImage_Ok_files path img format w w' :
  saveImage path img format w = (None, w') ->
  exists data, files w' = <[path := data]> (files w).
Proof.
  unfold service.saveImage. intros H.
  destruct (fs_temp o (tick w)); [discriminate|].
  match type of H with
  | match ?enc with _ => _ end = _ => destruct enc as [data|]
  end; [|discriminate].
  exists data. apply (Save_outcome o) in H.
  destruct H as (_ & _ & H). apply H. reflexivity.
Qed.

Lemma ProcessImage_Ok_files task w w' :
  ProcessImage task w = (None, w') ->
  exists d1 d2,
    files w' =
      <[filepath_Join "thumbnail"
          (ImageID task +:+ service.getExtension (TaskFormat task)) := d2]>
        (<[filepath_Join "processed"
             (ImageID task +:+ service.getExtension (TaskFormat task)) := d1]>
           (files w)).
Proof.
  unfold service.ProcessImage. intros H.
  destruct (repo.GetByID o (ImageID task) w) as [[img|e] w1] eqn:HG;
    [|discriminate].
  pose proof (GetByID_world _ _ _ _ _ HG) as ->. clear HG.
  unfold repo.Now in H.
  match type of H with
  | context [repo.Update o ?p ?wx] =>
      destruct (repo.Update o p wx) as [[e|] w2] eqn:HU
  end; [discriminate|].
  apply Update_cases in HU.
  destruct HU as [(e1 & _ & Hr & _)|(_ & _ & ->)]; [discriminate|].
  destruct (repo.Read o (ImagePath task) _) as [[data|e] w3] eqn:HR.
  2:{ apply markFailed_outcome in H. destruct H as [H _]. discriminate. }
  pose proof (Read_world _ _ _ _ _ HR) as ->. clear HR.
  destruct (service.decodeImage _ _ _ data (TaskFormat task)) as [orig|e].
  2:{ apply markFailed_outcome in H. destruct H as [H _]. discriminate. }
  destruct (saveImage _ _ _ _) as [[e|] w4] eqn:HS1 in H.
  { apply markFailed_outcome in H. destruct H as [H _]. discriminate. }
  apply saveImage_Ok_files in HS1. destruct HS1 as [d1 HS1].
  destruct (saveImage _ _ _ w4) as [[e|] w5] eqn:HS2 in H.
  { apply markFailed_outcome in H. destruct H as [H _]. discriminate. }
  apply saveImage_Ok_files in HS2. destruct HS2 as [d2 HS2].
  match type of H with
  | context [repo.Update o ?c ?wx] =>
      destruct (repo.Update o c wx) as [[e|] w6] eqn:HU2
  end; [discriminate|].
  apply Update_cases in HU2.
  destruct HU2 as [(e1 & _ & Hr & _)|(_ & _ & ->)]; [discriminate|].
  inversion H; subst w'. exists d1, d2. simpl. rewrite HS2, HS1. reflexivity.
Qed.

End Blobs.

Lemma parseFormat_cases ext format :
  service.parseFormat ext = Ok format ->
  In ext [".jpg"; ".jpeg"; ".png"; ".gif"] /\
  service.getExtension format = canonical_ext ext.
Proof.
  unfold service.parseFormat. intros H.
  destruct (String.eqb_spec ext ".jpg") as [->|_].
  { inversion H. split; [simpl; auto|reflexivity]. }
  destruct (String.eqb_spec ext ".jpeg") as [->|_].
  { inversion H. split; [simpl; auto|reflexivity]. }
  destruct (String.eqb_spec ext ".png") as [->|_].
  { inversion H. split; [simpl; auto|reflexivity]. }
  destruct (String.eqb_spec ext ".gif") as [->|_].
  { inversion H. split; [simpl; auto|reflexivity]. }
  discriminate.
Qed.

Lemma parseFormat_unsupported ext :
  ~ In ext [".jpg"; ".jpeg"; ".png"; ".gif"] ->
  service.parseFormat ext = Err ErrInvalidFormat.
Proof.
  intros Hn. destruct (service.parseFormat ext) as [format|e] eqn:H.
  - apply parseFormat_cases in H. destruct H as [H _]. contradiction.
  - revert H. unfold service.parseFormat.
    destruct (_ || _); [discriminate|].
    destruct (String.eqb ext ".png"); [discriminate|].
    destruct (String.eqb ext ".gif"); [discriminate|].
    congruence.
Qed.

Lemma find_app_fresh id (rows : list Image) row :
  existsb (repo.has_id id) rows = false ->
  repo.has_id id row = true ->
  find (repo.has_id id) (rows ++ [row]) = Some row.
Proof.
  intros Hfresh Hrow. induction rows as [|r rows IH]; simpl in *.
  - rewrite Hrow. reflexivity.
  - apply orb_false_elim in Hfresh. destruct Hfresh as [Hr Hrest].
    rewrite Hr. apply IH, Hrest.
Qed.

(** ** Properties of the ingestion service *)

Section Ingestion.

Variable o : Oracle.
Variable cfg : config.ImageConfig.
Variable jpeg_Decode png_Decode gif_Decode : bytes -> Result image.Image.
Variable jpeg_Encode : image.Image -> Z -> Result bytes.
Variable png_Encode gif_Encode : image.Image -> Result bytes.
Variable lanczos3 : Z -> Z -> image.Image -> bytes.
Variable scaled_side : Z -> Z -> Z -> Z.
Variable json_Marshal : ProcessingTask -> Result bytes.

Local Abbreviation decodeImage :=
  (service.decodeImage jpeg_Decode png_Decode gif_Decode).
Local Abbreviation ProcessImage :=
  (service.ProcessImage o cfg jpeg_Decode png_Decode gif_Decode
     jpeg_Encode png_Encode gif_Encode lanczos3 scaled_side).
Local Abbreviation Upload :=
  (service.Upload o cfg jpeg_Decode png_Decode gif_Decode json_Marshal).

(** C6, as amended. After a successful Upload one message has been
    appended to the topic: its key is the image id, and its value is
    the serialization of a task that carries the image id, the path of
    the original blob, the format read from the extension, and as
    width and height the size measured on the decoded original (not
    the size the worker resizes to). *)
Theorem Upload_enqueues_original_size file header w img w' :
  Upload file header w = (Ok img, w') ->
  exists orig data p,
    let task :=
      {| ImageID := ID img; ImagePath := OriginalPath img;
         TaskFormat := Format img;
         Width := image.Dx orig; Height := image.Dy orig |} in
    service.parseFormat
      (strings_ToLower (filepath_Ext (service.Filename header))) = Ok (Format img) /\
    decodeImage file (Format img) = Ok orig /\
    OriginalWidth img = image.Dx orig /\ OriginalHeight img = image.Dy orig /\
    json_Marshal task = Ok data /\
    topic w' = topic w ++
               [(p, {| kafkago.Partition := 0; kafkago.Offset := 0;
                       kafkago.Key := bytes_of_string (ID img);
                       kafkago.Value := data |})].
Proof.
  intros H. apply Upload_Ok in H.
  destruct H as (format & orig & now & data & p & H). cbv zeta in H.
  destruct H as (_ & Hfmt & HD & Himg & HM & _ & _ & _ & Ht).
  exists orig, data, p. cbv zeta.
  subst img. simpl in *. repeat split; assumption.
Qed.

(** C7, as amended. An upload whose extension is written in ASCII
    and, in lower case, is none of .jpg, .jpeg, .png and .gif fails and
    leaves the registry, the blob store and the topic as they were. The
    error is the one for an unsupported format when the declared size
    is within the configured maximum; a larger upload is refused for
    its size before the extension is looked at. *)
Theorem Upload_unsupported_extension file header w :
  isASCII (filepath_Ext (service.Filename header)) = true ->
  ~ In (strings_ToLower (filepath_Ext (service.Filename header)))
       [".jpg"; ".jpeg"; ".png"; ".gif"] ->
  fst (Upload file header w)
  = Err (if config.MaxFileSize cfg <? service.Size header
         then New "file size exceeds maximum allowed size"
         else Wrap "unsupported format" ErrInvalidFormat)
  /\ images (snd (Upload file header w)) = images w
  /\ files (snd (Upload file header w)) = files w
  /\ topic (snd (Upload file header w)) = topic w.
Proof.
  intros _ Hext. apply parseFormat_unsupported in Hext.
  unfold service.Upload, repo.GenerateID.
  destruct (config.MaxFileSize cfg <? service.Size header).
  - simpl. auto.
  - rewrite Hext. simpl. auto.
Qed.

(** C8, as amended. For an image that was uploaded and then processed
    with success, the row names three blobs that exist in the store:
    the original under original/, named by the id and the extension of
    the uploaded file in lower case; the processed image and the
    thumbnail under processed/ and thumbnail/, named by the same id
    and the extension of the format, which is the extension of the
    upload in lower case except that .jpeg becomes .jpg. *)
Theorem blob_paths_of_processed_upload file header w img w1 w2 :
  Upload file header w = (Ok img, w1) ->
  ProcessImage (task_of img) w1 = (None, w2) ->
  let ext := strings_ToLower (filepath_Ext (service.Filename header)) in
  exists row,
    find (repo.has_id (ID img)) (images w2) = Some row /\
    OriginalPath row = filepath_Join "original" (ID img +:+ ext) /\
    ProcessedPath row = filepath_Join "processed" (ID img +:+ canonical_ext ext) /\
    ThumbnailPath row = filepath_Join "thumbnail" (ID img +:+ canonical_ext ext) /\
    is_Some (files w2 !! OriginalPath row) /\
    is_Some (files w2 !! ProcessedPath row) /\
    is_Some (files w2 !! ThumbnailPath row).
Proof.
  intros HU HP. cbv zeta.
  apply Upload_Ok in HU.
  destruct HU as (format & orig & now & data & p & HU). cbv zeta in HU.
  destruct HU as (_ & Hfmt & _ & Himg & _ & Hi & Hfresh & Hf & _).
  apply parseFormat_cases in Hfmt. destruct Hfmt as [_ Hcanon].
  assert (Hfmt' : Format img = format) by (subst img; reflexivity).
  assert (Hop : OriginalPath img =
                filepath_Join "original"
                  (ID img +:+ strings_ToLower (filepath_Ext (service.Filename header))))
    by (subst img; reflexivity).
  assert (Hfind1 : find (repo.has_id (ID img)) (images w1) = Some img).
  { rewrite Hi. apply find_app_fresh; [exact Hfresh|].
    unfold repo.has_id. apply String.eqb_refl. }
  pose proof (ProcessImage_Ok_files _ _ _ _ _ _ _ _ _ _ _ _ _ HP) as (d1 & d2 & Hfiles).
  apply ProcessImage_outcome in HP.
  destruct HP as [(c & Hr & _)|(img0 & t1 & Hfind & HP)]; [discriminate|].
  cbv zeta in HP. change (ImageID (task_of img)) with (ID img) in *.
  rewrite Hfind1 in Hfind. injection Hfind as <-.
  destruct HP as [(c & Hr & _)|[(msg & c & t2 & Hr & _)
                 |[(c & Hr & _)|(_ & data0 & orig0 & t3 & _ & _ & Hi2)]]];
    try discriminate.
  change (TaskFormat (task_of img)) with (Format img) in Hfiles.
  rewrite Hfmt', Hcanon in Hfiles.
  eexists. split.
  { rewrite Hi2. apply find_updateWhere; [reflexivity|].
    apply find_updateWhere; [reflexivity|exact Hfind1]. }
  simpl. rewrite Hfmt', Hcanon, Hfiles.
  split; [exact Hop|]. split; [reflexivity|]. split; [reflexivity|].
  split; [|split].
  - destruct (decide (filepath_Join "thumbnail"
                        (ID img +:+ canonical_ext
                           (strings_ToLower (filepath_Ext (service.Filename header))))
                      = OriginalPath img)) as [E|E].
    + rewrite E, lookup_insert_eq. eauto.
    + rewrite lookup_insert_ne by exact E.
      destruct (decide (filepath_Join "processed"
                          (ID img +:+ canonical_ext
                             (strings_ToLower (filepath_Ext (service.Filename header))))
                        = OriginalPath img)) as [E'|E'].
      * rewrite E', lookup_insert_eq. eauto.
      * rewrite lookup_insert_ne by exact E'.
        rewrite Hf, lookup_insert_eq. eauto.
  - destruct (decide (filepath_Join "thumbnail"
                        (ID img +:+ canonical_ext
                           (strings_ToLower (filepath_Ext (service.Filename header))))
                      = filepath_Join "processed"
                        (ID img +:+ canonical_ext
                           (strings_ToLower (filepath_Ext (service.Filename header))))))
      as [E|E].
    + rewrite E, lookup_insert_eq. eauto.
    + rewrite lookup_insert_ne by exact E. rewrite lookup_insert_eq. eauto.
  - rewrite lookup_insert_eq. eauto.
Qed.

End Ingestion.

(** ** Properties of the producer and the consumer loop *)

(** The partition [LeastBytes] chooses does not depend on the message. *)
Lemma Balance_ignores_message cs m1 m2 ps :
  option_map fst (kafkago.Balance cs m1 ps) = option_map fst (kafkago.Balance cs m2 ps).
Proof.
  unfold kafkago.Balance.
  destruct (if Nat.eqb (length ps) (length cs) then cs else kafkago.makeCounters ps)
    as [|c0 rest]; [reflexivity|].
  destruct ((c0 :: rest) !! _); reflexivity.
Qed.

(** The scan of [Balance] ends on a counter that no counter is below:
    [pre] are the counters scanned so far, [cm] the least of them. *)
Lemma scanMin_least cs pre minIndex cm :
  pre !! minIndex = Some cm ->
  Forall (fun c => kafkago.nbytes cm <= kafkago.nbytes c) pre ->
  exists c,
    (pre ++ cs) !! kafkago.scanMin cs (length pre) minIndex (kafkago.nbytes cm)
    = Some c /\
    Forall (fun c' => kafkago.nbytes c <= kafkago.nbytes c') (pre ++ cs).
Proof.
  revert pre minIndex cm.
  induction cs as [|c cs IH]; intros pre minIndex cm Hm Hall; simpl.
  - exists cm. rewrite app_nil_r. auto.
  - assert (Hlen : length (pre ++ [c]) = S (length pre))
      by (rewrite length_app; simpl; lia).
    replace (pre ++ c :: cs) with ((pre ++ [c]) ++ cs)
      by (rewrite <- app_assoc; reflexivity).
    rewrite <- Hlen.
    destruct (kafkago.nbytes c <? kafkago.nbytes cm) eqn:E.
    + apply Z.ltb_lt in E. apply IH.
      * rewrite lookup_app_r by lia. rewrite Nat.sub_diag. reflexivity.
      * apply Forall_app. split.
        -- eapply Forall_impl; [exact Hall|]. simpl. intros x Hx. lia.
        -- constructor; [lia|constructor].
    + apply Z.ltb_ge in E. apply IH.
      * apply lookup_app_l_Some. exact Hm.
      * apply Forall_app. split; [exact Hall|].
        constructor; [exact E|constructor].
Qed.

Lemma Balance_least cs msg ps p cs' :
  kafkago.Balance cs msg ps = Some (p, cs') ->
  least_loaded (if Nat.eqb (length ps) (length cs) then cs
                else kafkago.makeCounters ps) p.
Proof.
  unfold kafkago.Balance.
  destruct (if Nat.eqb (length ps) (length cs) then cs else kafkago.makeCounters ps)
    as [|c0 rest]; [discriminate|].
  destruct (scanMin_least rest [c0] 0%nat c0 eq_refl) as (c & Hc & Hall).
  { constructor; [lia|constructor]. }
  simpl in Hc, Hall. rewrite Hc. intros [= <- _].
  exists c. split; [|split; [reflexivity|exact Hall]].
  apply list_elem_of_In. eapply list_elem_of_lookup_2. exact Hc.
Qed.

Section Routing.

Variable o : Oracle.
Variable json_Marshal : ProcessingTask -> Result bytes.

(** C4, as amended. The message SendTask writes for a task has the
    image id of the task as its key. Its partition does not come from
    the key: it is the partition of a counter of the balancer that no
    counter is below, that is, one that has received the fewest bytes
    so far, and any other message, whatever its key, would have been
    given the same partition in its place. *)
Theorem SendTask_partition_follows_load task w w' :
  kafka.SendTask o json_Marshal task w = (None, w') ->
  exists data p,
    json_Marshal task = Ok data /\
    topic w' = topic w ++
               [(p, {| kafkago.Partition := 0; kafkago.Offset := 0;
                       kafkago.Key := bytes_of_string (ImageID task);
                       kafkago.Value := data |})] /\
    least_loaded (counters_in_use w) p /\
    forall other,
      option_map fst (kafkago.Balance (counters w) other (partitions w)) = Some p.
Proof.
  unfold kafka.SendTask, kafka.WriteMessages. intros H.
  destruct (json_Marshal task) as [data|e]; [|discriminate].
  fold (message_of task data) in H.
  destruct (kafkago.Balance (counters w) (message_of task data) (partitions w))
    as [[p cs]|] eqn:HB; [|discriminate].
  destruct (kafka_error o (tick w)); [discriminate|].
  inversion H; subst w'; clear H.
  exists data, p. split; [reflexivity|]. split; [reflexivity|]. split.
  - apply Balance_least in HB. exact HB.
  - intros other.
    rewrite (Balance_ignores_message _ other (message_of task data)), HB.
    reflexivity.
Qed.

End Routing.

Section ConsumerLoop.

Variable St : Type.
Variable ProcessImage : ProcessingTask -> St -> option error * St.
Variable json_Unmarshal : bytes -> Result ProcessingTask.

Local Abbreviation iteration := (kafka.iteration St ProcessImage json_Unmarshal).
Local Abbreviation Start := (kafka.Start St ProcessImage json_Unmarshal).
Local Abbreviation handled := (kafka.handled json_Unmarshal).

Lemma iteration_handled r s tr :
  handled tr -> handled (snd (iteration r s) ++ tr).
Proof.
  intros Htr. unfold kafka.iteration.
  destruct (kafka.ctx_done r); [exact Htr|].
  destruct (kafka.fetched r) as [msg|e]; [|exact Htr].
  destruct (json_Unmarshal (kafkago.Value msg)) as [task|e] eqn:HU.
  - destruct (ProcessImage task s) as [res s'].
    destruct (kafka.commit_result r); simpl;
      apply kafka.handled_task; assumption.
  - simpl. eapply kafka.handled_drop; eassumption.
Qed.

Lemma Start_handled rounds s : handled (snd (Start rounds s)).
Proof.
  revert s. induction rounds as [|r rest IH]; intros s; simpl.
  - constructor.
  - pose proof (iteration_handled r s) as Hit.
    destruct (iteration r s) as [[flow s'] evs]. simpl in Hit.
    destruct flow.
    + specialize (IH s'). destruct (Start rest s') as [[res s''] evs'].
      simpl in *. apply Hit, IH.
    + simpl. specialize (Hit [] (kafka.handled_nil _)).
      rewrite app_nil_r in Hit. exact Hit.
Qed.

(** The loop that is still running after some turns goes on from the
    state and the trace it has reached. *)
Lemma Start_resumes pre rest s s1 tr :
  Start pre s = (None, s1, tr) ->
  Start (pre ++ rest) s
  = (fst (fst (Start rest s1)), snd (fst (Start rest s1)),
     tr ++ snd (Start rest s1)).
Proof.
  revert s s1 tr. induction pre as [|a pre IH]; intros s s1 tr Hpre; simpl in *.
  - inversion Hpre; subst. destruct (Start rest s1) as [[r s2] tr2]. reflexivity.
  - destruct (iteration a s) as [[flow s'] evs].
    destruct flow; [|discriminate].
    destruct (Start pre s') as [[res s''] evs'] eqn:Hrest.
    inversion Hpre; subst.
    rewrite (IH _ _ _ Hrest). simpl. rewrite app_assoc. reflexivity.
Qed.

Lemma handled_calls tr :
  handled tr ->
  commits tr = fetches tr /\
  processed tr = tasks_of json_Unmarshal (fetches tr).
Proof.
  induction 1 as [|msg task res c tr HU _ [IH1 IH2]|msg e c tr HU _ [IH1 IH2]].
  - split; reflexivity.
  - unfold commits, fetches, processed, tasks_of in *. simpl.
    rewrite HU, IH1, IH2. split; reflexivity.
  - unfold commits, fetches, processed, tasks_of in *. simpl.
    rewrite HU, IH1, IH2. split; reflexivity.
Qed.

(** C3, as amended. Take any run of the consumer loop and any turn of
    it in which a message is fetched. If the message deserializes, the
    processor is called on its task and then CommitMessages is called
    for the message, once, whatever the processor returned (its result
    is in the trace and nowhere else): when the reader accepts the
    commit, the loop goes on from the state the processor left, with
    the answers the reader gives next; when the reader refuses it,
    Start returns the error of the commit, wrapped, and nothing else is
    done. If the message does not deserialize, CommitMessages is called
    for it, once, the processor is not called, and the loop goes on
    from the same state whether the reader accepted the commit or not.
    In the whole run the calls of CommitMessages are for the messages
    fetched, one call for each fetch and in the same order, and the
    calls of the processor are for the tasks of the fetched messages
    that deserialize. *)
Theorem consumer_commits_each_message_once pre r rest s s1 tr msg :
  Start pre s = (None, s1, tr) ->
  kafka.ctx_done r = false ->
  kafka.fetched r = Ok msg ->
  let run := Start (pre ++ r :: rest) s in
  let commit := kafka.EvCommit msg (kafka.commit_result r) in
  let continued s2 turn :=
    (fst (fst (Start rest s2)), snd (fst (Start rest s2)),
     tr ++ turn ++ snd (Start rest s2)) in
  match json_Unmarshal (kafkago.Value msg) with
  | Ok task =>
      let res := fst (ProcessImage task s1) in
      let s2 := snd (ProcessImage task s1) in
      let turn := [kafka.EvFetch msg; kafka.EvProcess task res; commit] in
      run = match kafka.commit_result r with
            | None => continued s2 turn
            | Some e => (Some (Wrap "failed to commit message" e), s2, tr ++ turn)
            end
  | Err _ => run = continued s1 [kafka.EvFetch msg; commit]
  end
  /\ commits (snd run) = fetches (snd run)
  /\ processed (snd run) = tasks_of json_Unmarshal (fetches (snd run)).
Proof.
  intros Hpre Hctx Hfetch. cbv zeta. split.
  - rewrite (Start_resumes _ _ _ _ _ Hpre). simpl.
    unfold kafka.iteration. rewrite Hctx, Hfetch.
    destruct (json_Unmarshal (kafkago.Value msg)) as [task|e].
    + destruct (ProcessImage task s1) as [res s2]. simpl.
      destruct (kafka.commit_result r) as [e|]; [reflexivity|].
      destruct (Start rest s2) as [[res' s3] tr3]. reflexivity.
    + destruct (Start rest s1) as [[res' s3] tr3]. reflexivity.
  - apply handled_calls, Start_handled.
Qed.

(** C10. When FetchMessage returns an error, Start returns that error,
    wrapped, at once: whatever answers the outside would have given
    afterwards, the result is the error, and the state of the
    processor and the trace of calls are what they were before the
    fetch, so that no task was processed and nothing was committed
    for it. *)
Theorem fetch_error_ends_loop pre r rest s s1 tr e :
  Start pre s = (None, s1, tr) ->
  kafka.ctx_done r = false ->
  kafka.fetched r = Err e ->
  Start (pre ++ r :: rest) s
  = (Some (Wrap "failed to fetch message" e), s1, tr).
Proof.
  intros Hpre Hctx Hfetch. revert s s1 tr Hpre.
  induction pre as [|a pre IH]; intros s s1 tr Hpre; simpl in *.
  - inversion Hpre; subst. unfold kafka.iteration.
    rewrite Hctx, Hfetch. reflexivity.
  - destruct (iteration a s) as [[flow s'] evs].
    destruct flow; [|discriminate].
    destruct (Start pre s') as [[res s''] evs'] eqn:Hrest.
    inversion Hpre; subst.
    rewrite (IH _ _ _ Hrest). reflexivity.
Qed.

End ConsumerLoop.

(** ** The properties at work on a deployment *)

Lemma ProcessImage_error_paths_witness :
  let run := Fixture.ProcessImage Fixture.calm Fixture.sample_task
               (Fixture.registered StatusPending) in
  exists msg c,
    Wrap "failed to read original image"
      (Wrap "file not found" (External "no such file")) = Wrap msg c /\
    In msg marking_messages /\
    status_of "id-1" (snd run) = Some StatusFailed.
Proof.
  cbv zeta.
  destruct (ProcessImage_error_paths Fixture.calm Fixture.cfg
              Fixture.decode Fixture.decode Fixture.decode
              Fixture.encodeq Fixture.encode Fixture.encode
              Fixture.kernel Fixture.side
              Fixture.sample_task (Fixture.registered StatusPending)
              (Wrap "failed to read original image"
                 (Wrap "file not found" (External "no such file")))
              (snd (Fixture.ProcessImage Fixture.calm Fixture.sample_task
                      (Fixture.registered StatusPending))))
    as [(c & H & _)|[(c & H & _)|[(c & H & _)|(msg & c & H & Hin & Hst)]]].
  - vm_compute. reflexivity.
  - discriminate H.
  - discriminate H.
  - discriminate H.
  - exists msg, c. split; [exact H|]. split; [exact Hin|].
    destruct Hst as [Hst|[Hst _]]; [exact Hst|].
    vm_compute in Hst. discriminate Hst.
Defined.

Lemma completed_has_configured_size_witness :
  exists row data orig,
    find (repo.has_id "id-1")
      (images (snd (Fixture.ProcessImage Fixture.calm Fixture.sample_task
                      (Fixture.stored StatusPending)))) = Some row /\
    Status row = StatusCompleted /\
    files (Fixture.stored StatusPending) !! "original/id-1.jpg" = Some data /\
    Fixture.decode data = Ok orig /\
    if (0 <? image.Dx orig) && (0 <? image.Dy orig)
    then ProcessedWidth row = 800 /\ ProcessedHeight row = 800
    else ProcessedWidth row = image.Dx orig /\
         ProcessedHeight row = image.Dy orig.
Proof.
  apply (completed_has_configured_size Fixture.calm Fixture.cfg
           Fixture.decode Fixture.decode Fixture.decode
           Fixture.encodeq Fixture.encode Fixture.encode
           Fixture.kernel Fixture.side
           Fixture.sample_task (Fixture.stored StatusPending)).
  - simpl. lia.
  - unfold is_int. simpl. lia.
  - simpl. lia.
  - unfold is_int. simpl. lia.
  - vm_compute. reflexivity.
Defined.

Lemma Upload_enqueues_original_size_witness :
  exists orig data p,
    service.parseFormat (strings_ToLower (filepath_Ext "photo.jpg")) = Ok "jpeg" /\
    Fixture.decode Fixture.content = Ok orig /\
    1920 = image.Dx orig /\ 1080 = image.Dy orig /\
    Fixture.marshal
      {| ImageID := "id-1"; ImagePath := "original/id-1.jpg"; TaskFormat := "jpeg";
         Width := image.Dx orig; Height := image.Dy orig |} = Ok data /\
    topic (snd (Fixture.Upload Fixture.calm Fixture.content
                  (Fixture.photo "photo.jpg" 3) Fixture.empty))
    = [] ++ [(p, {| kafkago.Partition := 0; kafkago.Offset := 0;
                    kafkago.Key := bytes_of_string "id-1";
                    kafkago.Value := data |})].
Proof.
  apply (Upload_enqueues_original_size Fixture.calm Fixture.cfg
           Fixture.decode Fixture.decode Fixture.decode Fixture.marshal
           Fixture.content (Fixture.photo "photo.jpg" 3) Fixture.empty
           (Fixture.row StatusPending)).
  vm_compute. reflexivity.
Defined.

Lemma Upload_unsupported_extension_witness :
  let run := Fixture.Upload Fixture.calm Fixture.content
               (Fixture.photo "scan.bmp" 10) Fixture.empty in
  fst run = Err (Wrap "unsupported format" ErrInvalidFormat)
  /\ images (snd run) = [] /\ files (snd run) = ∅ /\ topic (snd run) = [].
Proof.
  cbv zeta.
  apply (Upload_unsupported_extension Fixture.calm Fixture.cfg
           Fixture.decode Fixture.decode Fixture.decode Fixture.marshal
           Fixture.content (Fixture.photo "scan.bmp" 10) Fixture.empty).
  - reflexivity.
  - vm_compute. intros [H|[H|[H|[H|[]]]]]; discriminate H.
Defined.

Lemma blob_paths_of_processed_upload_witness :
  let w1 := snd (Fixture.Upload Fixture.calm Fixture.content
                   (Fixture.photo "photo.jpeg" 3) Fixture.empty) in
  let w2 := snd (Fixture.ProcessImage Fixture.calm (task_of Fixture.row_jpeg) w1) in
  exists row,
    find (repo.has_id "id-1") (images w2) = Some row /\
    OriginalPath row = filepath_Join "original" ("id-1" +:+ ".jpeg") /\
    ProcessedPath row = filepath_Join "processed" ("id-1" +:+ canonical_ext ".jpeg") /\
    ThumbnailPath row = filepath_Join "thumbnail" ("id-1" +:+ canonical_ext ".jpeg") /\
    is_Some (files w2 !! OriginalPath row) /\
    is_Some (files w2 !! ProcessedPath row) /\
    is_Some (files w2 !! ThumbnailPath row).
Proof.
  cbv zeta.
  apply (blob_paths_of_processed_upload Fixture.calm Fixture.cfg
           Fixture.decode Fixture.decode Fixture.decode
           Fixture.encodeq Fixture.encode Fixture.encode
           Fixture.kernel Fixture.side Fixture.marshal
           Fixture.content (Fixture.photo "photo.jpeg" 3) Fixture.empty
           Fixture.row_jpeg
           (snd (Fixture.Upload Fixture.calm Fixture.content
                   (Fixture.photo "photo.jpeg" 3) Fixture.empty))
           (snd (Fixture.ProcessImage Fixture.calm (task_of Fixture.row_jpeg)
                   (snd (Fixture.Upload Fixture.calm Fixture.content
                           (Fixture.photo "photo.jpeg" 3) Fixture.empty))))).
  - vm_compute. reflexivity.
  - vm_compute. reflexivity.
Defined.

Lemma consumer_commits_each_message_once_witness :
  let run := kafka.Start World (Fixture.ProcessImage Fixture.calm) Fixture.unmarshal
               ([Fixture.round_of []]
                  ++ Fixture.round_of Fixture.content :: [Fixture.broken_fetch])
               (Fixture.registered StatusPending) in
  let after := Fixture.ProcessImage Fixture.calm Fixture.sample_task
                 (Fixture.registered StatusPending) in
  run = (Some (Wrap "failed to fetch message" (External "connection reset")),
         snd after,
         [kafka.EvFetch (Fixture.message []);
          kafka.EvCommit (Fixture.message []) None]
           ++ [kafka.EvFetch (Fixture.message Fixture.content);
               kafka.EvProcess Fixture.sample_task (fst after);
               kafka.EvCommit (Fixture.message Fixture.content) None]
           ++ [])
  /\ commits (snd run) = fetches (snd run)
  /\ processed (snd run) = tasks_of Fixture.unmarshal (fetches (snd run)).
Proof.
  exact (consumer_commits_each_message_once World
           (Fixture.ProcessImage Fixture.calm) Fixture.unmarshal
           [Fixture.round_of []] (Fixture.round_of Fixture.content)
           [Fixture.broken_fetch] (Fixture.registered StatusPending)
           (Fixture.registered StatusPending)
           [kafka.EvFetch (Fixture.message []);
            kafka.EvCommit (Fixture.message []) None]
           (Fixture.message Fixture.content) eq_refl eq_refl eq_refl).
Defined.

Lemma SendTask_partition_follows_load_witness :
  exists data p,
    Fixture.marshal Fixture.sample_task = Ok data /\
    topic (snd (kafka.SendTask Fixture.calm Fixture.marshal Fixture.sample_task
                  Fixture.empty))
    = [] ++ [(p, {| kafkago.Partition := 0; kafkago.Offset := 0;
                    kafkago.Key := bytes_of_string "id-1";
                    kafkago.Value := data |})] /\
    least_loaded (counters_in_use Fixture.empty) p /\
    forall other,
      option_map fst (kafkago.Balance [] other [0; 1]) = Some p.
Proof.
  apply (SendTask_partition_follows_load Fixture.calm Fixture.marshal
           Fixture.sample_task Fixture.empty).
  vm_compute. reflexivity.
Defined.

Lemma fetch_error_ends_loop_witness :
  kafka.Start World (Fixture.ProcessImage Fixture.calm) Fixture.unmarshal
    ([Fixture.round_of []] ++ Fixture.broken_fetch :: [Fixture.round_of Fixture.content])
    (Fixture.registered StatusPending)
  = (Some (Wrap "failed to fetch message" (External "connection reset")),
     Fixture.registered StatusPending,
     [kafka.EvFetch (Fixture.message []); kafka.EvCommit (Fixture.message []) None]).
Proof.
  apply (fetch_error_ends_loop World (Fixture.ProcessImage Fixture.calm)
           Fixture.unmarshal [Fixture.round_of []] Fixture.broken_fetch
           [Fixture.round_of Fixture.content]).
  - reflexivity.
  - reflexivity.
  - reflexivity.
Defined.

(** ** Where the pipeline departs from the description *)

(** C1, counterexample. A completed row whose task is delivered again is
    put back to processing, and stays there when the blob is gone and
    the write of status failed does not go through; a failed row whose
    task is delivered again, with the blob in place, is processed anew
    and ends completed. *)
Lemma redelivery_reopens_closed_rows :
  (status_of "id-1" (Fixture.registered StatusCompleted) = Some StatusCompleted /\
   status_of "id-1"
     (snd (Fixture.ProcessImage (Fixture.pg_down_from 5) Fixture.sample_task
             (Fixture.registered StatusCompleted)))
   = Some StatusProcessing)
  /\ (status_of "id-1" (Fixture.stored StatusFailed) = Some StatusFailed /\
      status_of "id-1"
        (snd (Fixture.ProcessImage Fixture.calm Fixture.sample_task
                (Fixture.stored StatusFailed)))
      = Some StatusCompleted).
Proof. vm_compute. repeat split; reflexivity. Qed.

(** C2, counterexample. Three runs of ProcessImage that return an error
    and leave no failed status behind: the row is missing (no row is
    written); the last write fails (the row stays processing); the
    first write fails (the row stays pending). *)
Lemma errors_without_failed_status :
  (fst (Fixture.ProcessImage Fixture.calm Fixture.sample_task Fixture.empty)
   = Some (Wrap "failed to get image" ErrImageNotFound) /\
   images (snd (Fixture.ProcessImage Fixture.calm Fixture.sample_task Fixture.empty))
   = [])
  /\ (fst (Fixture.ProcessImage (Fixture.pg_down_from 9) Fixture.sample_task
             (Fixture.stored StatusPending))
      = Some (Wrap "failed to update image record"
                (Wrap "failed to update image" (External "connection lost"))) /\
      status_of "id-1"
        (snd (Fixture.ProcessImage (Fixture.pg_down_from 9) Fixture.sample_task
                (Fixture.stored StatusPending)))
      = Some StatusProcessing)
  /\ (fst (Fixture.ProcessImage (Fixture.pg_down_from 2) Fixture.sample_task
             (Fixture.stored StatusPending))
      = Some (Wrap "failed to update status"
                (Wrap "failed to update image" (External "connection lost"))) /\
      status_of "id-1"
        (snd (Fixture.ProcessImage (Fixture.pg_down_from 2) Fixture.sample_task
                (Fixture.stored StatusPending)))
      = Some StatusPending).
Proof. vm_compute. repeat split; reflexivity. Qed.

(** C3, counterexample. A message that deserializes is fetched and
    handed to the processor, and the reader refuses its commit: Start
    returns the error of the commit, and no commit of the message was
    ever accepted. A message that does not deserialize is fetched, and
    the reader refuses its commit: the loop goes on to the next
    message, and the only commit accepted in the run is the one of that
    next message. *)
Lemma refused_commit_is_no_acknowledgement :
  let start rounds :=
    kafka.Start World (Fixture.ProcessImage Fixture.calm) Fixture.unmarshal
      rounds (Fixture.registered StatusPending) in
  let run1 := start [Fixture.refused Fixture.content;
                     Fixture.round_of Fixture.content] in
  let run2 := start [Fixture.refused []; Fixture.round_of Fixture.content] in
  (fst (fst run1)
   = Some (Wrap "failed to commit message" (External "broker not available")) /\
   fetches (snd run1) = [Fixture.message Fixture.content] /\
   processed (snd run1) = [Fixture.sample_task] /\
   acknowledged (snd run1) = [])
  /\ (fst (fst run2) = None /\
      fetches (snd run2) = [Fixture.message []; Fixture.message Fixture.content] /\
      acknowledged (snd run2) = [Fixture.message Fixture.content]).
Proof. vm_compute. repeat split; reflexivity. Qed.

(** C4, counterexample. Two tasks, of two images, sent through a new
    writer to a topic of two partitions: the message with key id-1 goes
    to partition 0 when it is sent first and to partition 1 when it is
    sent second, so the key does not decide the partition. *)
Lemma partition_follows_load_not_key :
  let send t w := snd (kafka.SendTask Fixture.calm Fixture.marshal t w) in
  let placed w := map (fun pm => (fst pm, kafkago.Key (snd pm))) (topic w) in
  placed (send Fixture.second_task (send Fixture.sample_task Fixture.empty))
  = [(0, bytes_of_string "id-1"); (1, bytes_of_string "id-2")]
  /\ placed (send Fixture.sample_task (send Fixture.second_task Fixture.empty))
     = [(0, bytes_of_string "id-2"); (1, bytes_of_string "id-1")].
Proof. vm_compute. split; reflexivity. Qed.

(** C5, counterexample. With the processed size configured as 800 by
    800 and a decoder that finds a picture 0 wide and 1080 high, the
    run succeeds and the row is completed with processed width 0 and
    processed height 1080. *)
Lemma original_without_pixels_keeps_its_size :
  let run := service.ProcessImage Fixture.calm Fixture.cfg
               Fixture.flat_decode Fixture.flat_decode Fixture.flat_decode
               Fixture.encodeq Fixture.encode Fixture.encode
               Fixture.kernel Fixture.side
               Fixture.sample_task (Fixture.stored StatusPending) in
  fst run = None /\
  option_map (fun row => (Status row, ProcessedWidth row, ProcessedHeight row))
    (find (repo.has_id "id-1") (images (snd run)))
  = Some (StatusCompleted, 0, 1080) /\
  config.ProcessedWidth Fixture.cfg = 800 /\
  config.ProcessedHeight Fixture.cfg = 800.
Proof. vm_compute. repeat split; reflexivity. Qed.

(** C6, counterexample. With the processed size configured as 800 by
    800, the upload of a picture of 1920 by 1080 succeeds and the task
    it sends has width 1920 and height 1080. *)
Lemma enqueued_task_has_original_size :
  let run := Fixture.Upload Fixture.calm Fixture.content
               (Fixture.photo "photo.jpg" 3) Fixture.empty in
  let task := {| ImageID := "id-1"; ImagePath := "original/id-1.jpg";
                 TaskFormat := "jpeg"; Width := 1920; Height := 1080 |} in
  fst run = Ok (Fixture.row StatusPending) /\
  map (fun pm => Ok (kafkago.Value (snd pm))) (topic (snd run))
  = [Fixture.marshal task] /\
  config.ProcessedWidth Fixture.cfg = 800 /\
  config.ProcessedHeight Fixture.cfg = 800 /\
  Width task <> config.ProcessedWidth Fixture.cfg /\
  Height task <> config.ProcessedHeight Fixture.cfg.
Proof. vm_compute. repeat split; try reflexivity; discriminate. Qed.

(** C7, counterexample. A .bmp upload declared one byte larger than the
    configured maximum fails with the error for the size, not with the
    one for the format. *)
Lemma oversized_bmp_fails_for_its_size :
  let run := Fixture.Upload Fixture.calm Fixture.content
               (Fixture.photo "scan.bmp" (10 * 1024 * 1024 + 1)) Fixture.empty in
  fst run = Err (New "file size exceeds maximum allowed size") /\
  fst run <> Err (Wrap "unsupported format" ErrInvalidFormat).
Proof. vm_compute. split; [reflexivity|discriminate]. Qed.

(** C8, counterexample. The upload of photo.jpeg is stored as
    original/id-1.jpeg, and after processing the row names
    processed/id-1.jpg and thumbnail/id-1.jpg: the extension of the two
    results is not the one of the uploaded file. *)
Lemma jpeg_upload_changes_extension :
  let up := Fixture.Upload Fixture.calm Fixture.content
              (Fixture.photo "photo.jpeg" 3) Fixture.empty in
  let run := Fixture.ProcessImage Fixture.calm (task_of Fixture.row_jpeg) (snd up) in
  fst up = Ok Fixture.row_jpeg /\ fst run = None /\
  option_map (fun row => (OriginalPath row, ProcessedPath row, ThumbnailPath row))
    (find (repo.has_id "id-1") (images (snd run)))
  = Some ("original/id-1.jpeg", "processed/id-1.jpg", "thumbnail/id-1.jpg") /\
  filepath_Ext "photo.jpeg" <> filepath_Ext "processed/id-1.jpg".
Proof. vm_compute. repeat split; try reflexivity; discriminate. Qed.

(** ** The registry and the blob store on their own *)

Lemma find_existsb id (rows : list Image) :
  existsb (repo.has_id id) rows = false <-> find (repo.has_id id) rows = None.
Proof.
  induction rows as [|r rows IH]; simpl; [tauto|].
  destruct (repo.has_id id r); simpl; [split; discriminate|exact IH].
Qed.

Lemma find_app_old id (rows new : list Image) row :
  find (repo.has_id id) rows = Some row ->
  find (repo.has_id id) (rows ++ new) = Some row.
Proof.
  induction rows as [|r rows IH]; simpl; [discriminate|].
  destruct (repo.has_id id r); [auto|exact IH].
Qed.

Lemma map_updateWhere_missing img (rows : list Image) :
  find (repo.has_id (ID img)) rows = None ->
  map (repo.updateWhere img) rows = rows.
Proof.
  induction rows as [|r rows IH]; simpl; [reflexivity|].
  destruct (repo.has_id (ID img) r) eqn:E; [discriminate|].
  intros H. rewrite IH by exact H.
  unfold repo.updateWhere. rewrite E. reflexivity.
Qed.

Lemma map_ID_updateWhere img (rows : list Image) :
  map ID (map (repo.updateWhere img) rows) = map ID rows.
Proof.
  rewrite map_map. apply map_ext. intros row. unfold repo.updateWhere.
  destruct (repo.has_id _ _); reflexivity.
Qed.

Lemma find_other_updateWhere id img (rows : list Image) :
  ID img <> id ->
  find (repo.has_id id) (map (repo.updateWhere img) rows)
  = find (repo.has_id id) rows.
Proof.
  intros Hne. induction rows as [|r rows IH]; simpl; [reflexivity|].
  destruct (repo.has_id (ID img) r) eqn:E1.
  - assert (Hu : repo.updateWhere img r = repo.updateRow img r).
    { unfold repo.updateWhere. rewrite E1. reflexivity. }
    rewrite Hu. apply has_id_ID in E1.
    assert (E2 : repo.has_id id r = false).
    { unfold repo.has_id. apply String.eqb_neq. congruence. }
    assert (E3 : repo.has_id id (repo.updateRow img r) = false) by exact E2.
    rewrite E2, E3. exact IH.
  - assert (Hu : repo.updateWhere img r = r).
    { unfold repo.updateWhere. rewrite E1. reflexivity. }
    rewrite Hu. destruct (repo.has_id id r); [reflexivity|exact IH].
Qed.

Lemma find_filter_gone id (rows : list Image) :
  find (repo.has_id id)
    (List.filter (fun row => negb (repo.has_id id row)) rows) = None.
Proof.
  induction rows as [|r rows IH]; simpl; [reflexivity|].
  destruct (repo.has_id id r) eqn:E; simpl; [exact IH|].
  rewrite E. exact IH.
Qed.

Lemma find_filter_other id id' (rows : list Image) :
  id' <> id ->
  find (repo.has_id id')
    (List.filter (fun row => negb (repo.has_id id row)) rows)
  = find (repo.has_id id') rows.
Proof.
  intros Hne. induction rows as [|r rows IH]; simpl; [reflexivity|].
  destruct (repo.has_id id r) eqn:E; simpl.
  - apply has_id_ID in E.
    assert (E2 : repo.has_id id' r = false).
    { unfold repo.has_id. apply String.eqb_neq. congruence. }
    rewrite E2. exact IH.
  - destruct (repo.has_id id' r); [reflexivity|exact IH].
Qed.

Lemma filter_missing id (rows : list Image) :
  find (repo.has_id id) rows = None ->
  List.filter (fun row => negb (repo.has_id id row)) rows = rows.
Proof.
  induction rows as [|r rows IH]; simpl; [reflexivity|].
  destruct (repo.has_id id r); simpl; [discriminate|].
  intros H. rewrite IH by exact H. reflexivity.
Qed.

Lemma NoDup_map_filter {A B} (f : A -> B) (p : A -> bool) (l : list A) :
  NoDup (map f l) -> NoDup (map f (List.filter p l)).
Proof.
  induction l as [|a l IH]; simpl; [auto|].
  intros H. apply NoDup_cons in H. destruct H as [Hin Hnd].
  destruct (p a); simpl; [|auto].
  apply NoDup_cons. split; [|auto].
  intros Hin'. apply Hin.
  rewrite list_elem_of_In in *. apply in_map_iff in Hin'.
  destruct Hin' as (x & Hx & Hin'). apply filter_In in Hin'.
  apply in_map_iff. exists x. tauto.
Qed.

Lemma NoDup_ids_app_fresh (rows : list Image) img :
  NoDup (map ID rows) ->
  existsb (repo.has_id (ID img)) rows = false ->
  NoDup (map ID (rows ++ [img])).
Proof.
  intros Hnd Hfresh. rewrite map_app. simpl.
  apply NoDup_app. split; [exact Hnd|]. split; [|apply NoDup_singleton].
  intros x Hx Hx'. apply list_elem_of_singleton in Hx'. subst x.
  rewrite list_elem_of_In in Hx. apply in_map_iff in Hx.
  destruct Hx as (r & Hr & Hin).
  assert (Ht : existsb (repo.has_id (ID img)) rows = true).
  { apply existsb_exists. exists r. split; [exact Hin|].
    unfold repo.has_id. apply String.eqb_eq. exact Hr. }
  congruence.
Qed.

Section Registry.

Variable o : Oracle.
Variable fo : MoreFaults.

(** X1. A row that Create has inserted is what GetByID returns for its
    id, when the lookup itself does not fail. *)
Theorem Create_then_GetByID img w w1 :
  repo.Create o img w = (None, w1) ->
  pg_error o (tick w1) = None ->
  repo.GetByID o (ID img) w1 = (Ok img, next w1).
Proof.
  intros HC Hpg. apply (Create_outcome o) in HC.
  destruct HC as (_ & _ & [(_ & Hi & Hfresh)|(Hne & _)]); [|congruence].
  unfold repo.GetByID. rewrite Hpg, Hi.
  rewrite find_app_fresh; [reflexivity|exact Hfresh|].
  unfold repo.has_id. apply String.eqb_refl.
Qed.

(** Create refuses an image whose id is already in the table: it
    returns an error and leaves the table as it is, whatever the other
    columns of the image are. *)
Lemma Create_refuses_known_id img w row :
  find (repo.has_id (ID img)) (images w) = Some row ->
  (exists e, fst (repo.Create o img w) = Some (Wrap "failed to create image" e))
  /\ images (snd (repo.Create o img w)) = images w.
Proof.
  intros Hfind. unfold repo.Create.
  destruct (pg_error o (tick w)) as [e|]; simpl; [eauto|].
  destruct (existsb (repo.has_id (ID img)) (images w)) eqn:E; simpl; [eauto|].
  apply find_existsb in E. congruence.
Qed.

(** X2. Update for an id that has no row is no error and changes
    nothing: the caller cannot tell it from an update that was applied. *)
Theorem Update_of_unknown_id_is_silent img w :
  find (repo.has_id (ID img)) (images w) = None ->
  pg_error o (tick w) = None ->
  repo.Update o img w = (None, next w).
Proof.
  intros Hfind Hpg. unfold repo.Update. rewrite Hpg.
  rewrite map_updateWhere_missing by exact Hfind.
  destruct w; reflexivity.
Qed.

(** X3. After an Update the lookup of the id returns the row with the
    six columns of the image that was handed in (processed_path,
    thumbnail_path, status, processed_width, processed_height,
    updated_at) and the other columns as they were stored, and the
    lookup of any other id returns what it returned before. *)
Theorem Update_then_GetByID img w w1 row :
  find (repo.has_id (ID img)) (images w) = Some row ->
  repo.Update o img w = (None, w1) ->
  pg_error o (tick w1) = None ->
  repo.GetByID o (ID img) w1 = (Ok (repo.updateRow img row), next w1)
  /\ forall id, id <> ID img ->
                find (repo.has_id id) (images w1) = find (repo.has_id id) (images w).
Proof.
  intros Hfind HU Hpg. apply (Update_cases o) in HU.
  destruct HU as [(e & _ & Hr & _)|(_ & _ & ->)]; [discriminate|].
  split.
  - unfold repo.GetByID. rewrite Hpg. simpl.
    rewrite (find_updateWhere (ID img) img _ row eq_refl Hfind). reflexivity.
  - intros id Hne. simpl. apply find_other_updateWhere. congruence.
Qed.


(** X5. The ids of the table stay unique under the three writing
    operations of the registry, whether they succeed or fail. *)
Theorem registry_keeps_ids_unique w :
  unique_ids w ->
  (forall img, unique_ids (snd (repo.Create o img w)))
  /\ (forall img, unique_ids (snd (repo.Update o img w)))
  /\ (forall id, unique_ids (snd (repo.Delete o id w))).
Proof.
  unfold unique_ids. intros Hnd. split; [|split].
  - intros img. unfold repo.Create.
    destruct (pg_error o (tick w)); simpl; [exact Hnd|].
    destruct (existsb _ _) eqn:E; simpl; [exact Hnd|].
    apply NoDup_ids_app_fresh; assumption.
  - intros img. unfold repo.Update.
    destruct (pg_error o (tick w)); simpl; [exact Hnd|].
    rewrite map_ID_updateWhere. exact Hnd.
  - intros id. unfold repo.Delete.
    destruct (pg_error o (tick w)); simpl; [exact Hnd|].
    apply NoDup_map_filter. exact Hnd.
Qed.

End Registry.

Lemma insertDesc_Permutation row (sorted : list Image) :
  Permutation (repo.insertDesc row sorted) (row :: sorted).
Proof.
  induction sorted as [|r rest IH]; simpl; [reflexivity|].
  destruct (CreatedAt r <=? CreatedAt row); [reflexivity|].
  rewrite IH. apply perm_swap.
Qed.

Lemma insertDesc_sorted row (sorted : list Image) :
  StronglySorted newest_first sorted ->
  StronglySorted newest_first (repo.insertDesc row sorted).
Proof.
  induction sorted as [|r rest IH]; simpl; intros Hs.
  - constructor; constructor.
  - apply StronglySorted_inv in Hs. destruct Hs as [Hrest Hall].
    destruct (CreatedAt r <=? CreatedAt row) eqn:E.
    + apply Z.leb_le in E. constructor.
      * constructor; assumption.
      * constructor; [exact E|].
        eapply Forall_impl; [exact Hall|].
        intros x Hx. unfold newest_first in *. lia.
    + apply Z.leb_gt in E. constructor; [apply IH, Hrest|].
      rewrite (insertDesc_Permutation row rest).
      constructor; [unfold newest_first; lia|exact Hall].
Qed.

Lemma orderByCreatedAtDesc_spec (rows : list Image) :
  Permutation (repo.orderByCreatedAtDesc rows) rows /\
  StronglySorted newest_first (repo.orderByCreatedAtDesc rows).
Proof.
  induction rows as [|r rows [IHp IHs]]; simpl.
  - split; constructor.
  - split.
    + rewrite insertDesc_Permutation. constructor. exact IHp.
    + apply insertDesc_sorted, IHs.
Qed.

Section Listing.

Variable o : Oracle.
Variable fo : MoreFaults.

(** X6. A page List returns is cut out of the whole table put in order
    of creation, newest first: the rows after the first [offset] ones,
    [limit] of them at most, and fewer only where the table ends. *)
Theorem List_returns_sorted_page limit offset w page w' :
  repo.List o fo limit offset w = (Ok page, w') ->
  exists sorted,
    Permutation sorted (images w) /\
    StronglySorted newest_first sorted /\
    page = take (Z.to_nat limit) (drop (Z.to_nat offset) sorted) /\
    length page
    = Nat.min (Z.to_nat limit) (length (images w) - Z.to_nat offset).
Proof.
  unfold repo.List. intros H.
  destruct (pg_error o (tick w)); [discriminate|].
  destruct ((limit <? 0) || (offset <? 0)); [discriminate|].
  destruct (orderByCreatedAtDesc_spec (images w)) as [Hp Hs].
  exists (repo.orderByCreatedAtDesc (images w)).
  assert (Hpage : page = take (Z.to_nat limit)
                           (drop (Z.to_nat offset)
                              (repo.orderByCreatedAtDesc (images w)))).
  { destruct (take _ _) as [|x l]; destruct (pg_scan fo (tick w));
      destruct (pg_rows fo (tick w)); congruence. }
  split; [exact Hp|]. split; [exact Hs|]. split; [exact Hpage|].
  rewrite Hpage, length_take, length_drop.
  rewrite (Permutation_length Hp). reflexivity.
Qed.

(** X7. For a clean local path: what Save has written under the path
    is what Read returns for it, and the files under the other clean
    local paths are not touched. *)
Theorem Save_then_Read path data w w1 :
  clean_local path = true ->
  repo.Save o path data w = (None, w1) ->
  fs_open o (tick w1) = None ->
  repo.Read o path w1 = (Ok data, next w1)
  /\ forall p, clean_local p = true -> p <> path ->
               files w1 !! p = files w !! p.
Proof.
  intros _ HS Hopen. apply (Save_outcome o) in HS.
  destruct HS as (_ & _ & Hf). specialize (Hf eq_refl). split.
  - unfold repo.Read. rewrite Hf, lookup_insert_eq, Hopen. reflexivity.
  - intros p _ Hne. rewrite Hf. apply lookup_insert_ne. congruence.
Qed.

(** X8. After the successful removal of a file stored under a clean
    local path, the file is gone for every operation of the store:
    Exists answers false, Read fails with file not found, and a second
    removal is no error; the files under the other clean local paths
    are not touched. *)
Theorem DeleteFile_then_gone path w w1 :
  clean_local path = true ->
  is_Some (files w !! path) ->
  repo.DeleteFile fo path w = (None, w1) ->
  repo.Exists fo path w1 = (Ok false, next w1)
  /\ repo.Read o path w1
     = (Err (Wrap "file not found" (External "no such file")), next w1)
  /\ repo.DeleteFile fo path w1 = (None, next w1)
  /\ forall p, clean_local p = true -> p <> path ->
               files w1 !! p = files w !! p.
Proof.
  unfold repo.DeleteFile at 1. intros _ [old E] HD. rewrite E in HD.
  destruct (fs_remove fo (tick w)); [discriminate|].
  inversion HD; subst w1. simpl.
  unfold repo.Exists, repo.Read, repo.DeleteFile. simpl.
  rewrite lookup_delete_eq.
  repeat split; try reflexivity.
  intros p _ Hne. apply lookup_delete_ne. congruence.
Qed.

End Listing.

(** ** What an upload leaves behind *)

Section UploadResidue.

Variable o : Oracle.
Variable cfg : config.ImageConfig.
Variable jpeg_Decode png_Decode gif_Decode : bytes -> Result image.Image.
Variable json_Marshal : ProcessingTask -> Result bytes.

Local Abbreviation Upload :=
  (service.Upload o cfg jpeg_Decode png_Decode gif_Decode json_Marshal).

Lemma SendTask_Err task w e w' :
  kafka.SendTask o json_Marshal task w = (Some e, w') ->
  (exists c, e = Wrap "failed to marshal task" c
             \/ e = Wrap "failed to write message" c) /\
  topic w' = topic w.
Proof.
  unfold kafka.SendTask, kafka.WriteMessages. intros H.
  destruct (json_Marshal task) as [data|c].
  2:{ inversion H; subst. split; [eauto|reflexivity]. }
  destruct (kafkago.Balance _ _ _) as [[p cs]|].
  - destruct (kafka_error o (tick w)) as [c|]; inversion H; subst.
    split; [eauto|reflexivity].
  - inversion H; subst. split; [eauto|reflexivity].
Qed.

(** Every failed run of [Upload] is of one of these kinds. *)
Lemma Upload_Err file header w e w' :
  Upload file header w = (Err e, w') ->
  let id := uuid_New o (tick w) in
  let ext := strings_ToLower (filepath_Ext (service.Filename header)) in
  let path := filepath_Join "original" (id +:+ ext) in
  (e = New "file size exceeds maximum allowed size" /\ w' = w)
  \/ (e = Wrap "unsupported format" ErrInvalidFormat /\ w' = next w)
  \/ (exists c, e = Wrap "failed to save original file" c /\
                images w' = images w /\ topic w' = topic w /\
                forall p, p <> path -> files w' !! p = files w !! p)
  \/ (exists msg c, e = Wrap msg c /\ In msg after_blob_messages /\
                    images w' = images w /\ topic w' = topic w /\
                    files w' = <[path := file]> (files w))
  \/ (exists c format orig now,
         e = Wrap "failed to send processing task" c /\
         images w' = images w ++ [uploaded_row id ext format orig now] /\
         existsb (repo.has_id id) (images w) = false /\
         topic w' = topic w /\
         files w' = <[path := file]> (files w)).
Proof.
  unfold service.Upload, repo.GenerateID, service.decodeImageForDimensions.
  intros H. cbv zeta.
  destruct (config.MaxFileSize cfg <? service.Size header).
  { left. inversion H. auto. }
  right.
  destruct (service.parseFormat _) as [format|c] eqn:Hfmt.
  2:{ left. inversion H; subst.
      assert (c = ErrInvalidFormat) as ->; [|auto].
      revert Hfmt. unfold service.parseFormat.
      destruct (_ || _); [discriminate|].
      destruct (String.eqb _ ".png"); [discriminate|].
      destruct (String.eqb _ ".gif"); [discriminate|]. congruence. }
  right.
  destruct (repo.Save o _ file (next w)) as [[c|] w1] eqn:HS.
  { left. exists c. inversion H; subst. split; [reflexivity|].
    unfold repo.Save in HS.
    destruct (fs_save o (tick (next w))); inversion HS; subst; simpl;
      repeat split; try reflexivity.
    intros p Hne. apply lookup_insert_ne. congruence. }
  right.
  apply (Save_outcome o) in HS. destruct HS as (HSi & HSt & HSf).
  specialize (HSf eq_refl).
  destruct (service.decodeImage _ _ _ file format) as [orig|c].
  2:{ left. exists "failed to decode image", c. inversion H; subst.
      split; [reflexivity|]. split; [simpl; auto|]. auto. }
  unfold repo.Now in H.
  match type of H with
  | context [Validate ?row] => set (row0 := row) in *
  end.
  destruct (Validate row0) as [c|].
  { left. exists "invalid image", c. inversion H; subst.
    split; [reflexivity|]. split; [simpl; auto|]. simpl. auto. }
  destruct (repo.Create o row0 (next w1)) as [[c|] w2] eqn:HC.
  { left. exists "failed to create image record", c.
    apply (Create_outcome o) in HC. destruct HC as (HCf & HCt & HCi).
    destruct HCi as [(Hn & _)|[_ HCi]]; [discriminate|].
    inversion H; subst. split; [reflexivity|]. split; [simpl; auto|].
    rewrite HCi, HCt, HCf. simpl. auto. }
  apply (Create_outcome o) in HC. destruct HC as (HCf & HCt & HCi).
  destruct HCi as [(_ & HCi & Hfresh)|[Hn _]]; [|congruence].
  destruct (kafka.SendTask o json_Marshal _ w2) as [[c|] w3] eqn:HK;
    [|discriminate].
  pose proof (SendTask_outcome o json_Marshal _ _ _ _ HK) as (HKi & HKf & _).
  apply SendTask_Err in HK. destruct HK as [_ HKt].
  right. exists c, format, orig, (time_Now o (tick w1)).
  inversion H; subst. split; [reflexivity|].
  simpl in Hfresh. rewrite HSi in Hfresh.
  rewrite HKi, HKt, HKf, HCi, HCt, HCf. simpl. rewrite HSi, HSt, HSf. auto.
Qed.

End UploadResidue.

Section UploadFacts.

Variable o : Oracle.
Variable cfg : config.ImageConfig.
Variable jpeg_Decode png_Decode gif_Decode : bytes -> Result image.Image.
Variable json_Marshal : ProcessingTask -> Result bytes.

Local Abbreviation Upload :=
  (service.Upload o cfg jpeg_Decode png_Decode gif_Decode json_Marshal).

Lemma Upload_Ok_valid file header w img w' :
  Upload file header w = (Ok img, w') -> Validate img = None.
Proof.
  unfold service.Upload, repo.GenerateID, service.decodeImageForDimensions.
  intros H.
  destruct (config.MaxFileSize cfg <? service.Size header); [discriminate|].
  destruct (service.parseFormat _) as [format|]; [|discriminate].
  destruct (repo.Save o _ file (next w)) as [[e|] w1]; [discriminate|].
  destruct (service.decodeImage _ _ _ file format) as [orig|]; [|discriminate].
  unfold repo.Now in H.
  match type of H with
  | context [Validate ?row] => set (row0 := row) in *
  end.
  destruct (Validate row0) eqn:HV; [discriminate|].
  destruct (repo.Create o row0 (next w1)) as [[e|] w2]; [discriminate|].
  destruct (kafka.SendTask o json_Marshal _ w2) as [[e|] w3]; [discriminate|].
  inversion H; subst. exact HV.
Qed.



(** X11. When Upload fails after the blob was written and before the
    row is (the content does not decode, or the row is refused), the
    blob stays in the store under original/<id><ext> with no row and
    no task for it. *)
Theorem failed_Upload_leaves_blob_without_row file header w msg c w' :
  Upload file header w = (Err (Wrap msg c), w') ->
  In msg after_blob_messages ->
  files w' !! filepath_Join "original"
                (uuid_New o (tick w)
                 +:+ strings_ToLower (filepath_Ext (service.Filename header)))
  = Some file
  /\ images w' = images w /\ topic w' = topic w.
Proof.
  intros H Hmsg. apply Upload_Err in H. cbv zeta in H.
  destruct H as [(He & _)|[(He & _)|[(c0 & He & _)
                |[(msg0 & c0 & He & _ & Hi & Ht & Hf)|(c0 & f & og & t & He & _)]]]].
  - discriminate.
  - exfalso. injection He as -> _. simpl in Hmsg.
    destruct Hmsg as [Hm|[Hm|[Hm|[]]]]; discriminate Hm.
  - exfalso. injection He as -> _. simpl in Hmsg.
    destruct Hmsg as [Hm|[Hm|[Hm|[]]]]; discriminate Hm.
  - rewrite Hf, lookup_insert_eq. auto.
  - exfalso. injection He as -> _. simpl in Hmsg.
    destruct Hmsg as [Hm|[Hm|[Hm|[]]]]; discriminate Hm.
Qed.

(** X12. The image a successful Upload returns is pending, has an id
    and an original path that are not empty, no processed or thumbnail
    path and no processed size, and the same time of creation and of
    update; the registry returns this image for its id, and the store
    returns the uploaded bytes for its original path. *)
Theorem Upload_then_lookup file header w img w1 :
  Upload file header w = (Ok img, w1) ->
  (Status img = StatusPending /\ ID img <> "" /\ OriginalPath img <> "" /\
   ProcessedPath img = "" /\ ThumbnailPath img = "" /\
   ProcessedWidth img = 0 /\ ProcessedHeight img = 0 /\
   CreatedAt img = UpdatedAt img)
  /\ (pg_error o (tick w1) = None ->
      repo.GetByID o (ID img) w1 = (Ok img, next w1))
  /\ (fs_open o (tick w1) = None ->
      repo.Read o (OriginalPath img) w1 = (Ok file, next w1)).
Proof.
  intros H. pose proof (Upload_Ok_valid _ _ _ _ _ H) as HV.
  apply Upload_Ok in H.
  destruct H as (format & orig & now & data & p & H). cbv zeta in H.
  destruct H as (_ & _ & _ & Himg & _ & Hi & Hfresh & Hf & _).
  split; [|split].
  - unfold Validate in HV.
    destruct (String.eqb_spec (ID img) ""); [discriminate|].
    destruct (String.eqb_spec (OriginalPath img) ""); [discriminate|].
    subst img. simpl in *. repeat split; auto.
  - intros Hpg. unfold repo.GetByID. rewrite Hpg, Hi.
    rewrite find_app_fresh; [reflexivity|exact Hfresh|].
    unfold repo.has_id. apply String.eqb_refl.
  - intros Hopen. unfold repo.Read. rewrite Hf, lookup_insert_eq, Hopen.
    reflexivity.
Qed.

End UploadFacts.

(** ** Deleting an image *)

Section Deleting.

Variable o : Oracle.
Variable fo : MoreFaults.

Local Abbreviation Delete := (service.Delete o fo).
Local Abbreviation dropBlob := (service.dropBlob fo).

Lemma dropBlob_frame p w :
  images (dropBlob p w) = images w /\ topic (dropBlob p w) = topic w /\
  forall q, q <> p -> files (dropBlob p w) !! q = files w !! q.
Proof.
  unfold service.dropBlob, repo.DeleteFile.
  destruct (String.eqb p ""); [auto|].
  destruct (files w !! p); [|simpl; auto].
  destruct (fs_remove fo (tick w)); simpl; [auto|].
  repeat split. intros q Hne. apply lookup_delete_ne. congruence.
Qed.

Lemma dropBlob_tick p w :
  tick (dropBlob p w) = if String.eqb p "" then tick w else S (tick w).
Proof.
  unfold service.dropBlob, repo.DeleteFile.
  destruct (String.eqb p ""); [reflexivity|].
  destruct (files w !! p); [|reflexivity].
  destruct (fs_remove fo (tick w)); reflexivity.
Qed.

Lemma dropBlob_removes p w :
  (forall n, fs_remove fo n = None) -> p <> "" ->
  files (dropBlob p w) !! p = None.
Proof.
  intros Hq Hp. unfold service.dropBlob, repo.DeleteFile.
  apply String.eqb_neq in Hp. rewrite Hp.
  destruct (files w !! p) eqn:E; [|exact E].
  rewrite Hq. simpl. apply lookup_delete_eq.
Qed.

Lemma dropBlob_keeps_gone p q w :
  files w !! q = None -> files (dropBlob p w) !! q = None.
Proof.
  intros Hgone. unfold service.dropBlob, repo.DeleteFile.
  destruct (String.eqb p ""); [exact Hgone|].
  destruct (files w !! p); [|exact Hgone].
  destruct (fs_remove fo (tick w)); simpl; [exact Hgone|].
  destruct (decide (p = q)) as [->|Hne]; [apply lookup_delete_eq|].
  rewrite lookup_delete_ne by exact Hne. exact Hgone.
Qed.

(** Every run of [Delete] is of one of these kinds. *)
Lemma Delete_outcome id w r w' :
  Delete id w = (r, w') ->
  (w' = next w /\
   ((r = Some ErrImageNotFound /\ find (repo.has_id id) (images w) = None /\
     pg_error o (tick w) = None)
    \/ exists c, r = Some (Wrap "failed to get image" c)))
  \/ exists row,
       find (repo.has_id id) (images w) = Some row /\
       let w3 := dropBlob (ThumbnailPath row)
                   (dropBlob (ProcessedPath row)
                      (dropBlob (OriginalPath row) (next w))) in
       ((r = None /\
         w' = set_images
                (List.filter (fun row => negb (repo.has_id id row)) (images w3))
                (next w3))
        \/ (exists c, r = Some (Wrap "failed to delete image" c) /\ w' = next w3)).
Proof.
  unfold service.Delete, repo.GetByID. intros H.
  destruct (pg_error o (tick w)) as [c|] eqn:Hpg.
  { left. inversion H; subst. split; [reflexivity|]. right. eauto. }
  destruct (find (repo.has_id id) (images w)) as [row|] eqn:Hfind.
  2:{ left. inversion H; subst. split; [reflexivity|]. left. auto. }
  right. exists row. split; [reflexivity|]. cbv zeta.
  unfold repo.Delete in H.
  clear Hpg.
  match type of H with
  | context [pg_error o ?t] => destruct (pg_error o t) as [c|]
  end; inversion H; subst.
  - right. exists c. split; reflexivity.
  - left. split; reflexivity.
Qed.

(** Deleting an id that has no row returns the error of the domain
    for a missing image, as it is, and touches nothing. *)
Lemma Delete_of_unknown_id id w :
  find (repo.has_id id) (images w) = None ->
  pg_error o (tick w) = None ->
  Delete id w = (Some ErrImageNotFound, next w).
Proof.
  intros Hfind Hpg. unfold service.Delete, repo.GetByID.
  rewrite Hpg, Hfind. reflexivity.
Qed.


(** X14. A second Delete of an id that was deleted returns the error
    for a missing image. *)
Theorem Delete_twice id w w1 :
  Delete id w = (None, w1) ->
  pg_error o (tick w1) = None ->
  Delete id w1 = (Some ErrImageNotFound, next w1).
Proof.
  intros H Hpg.
  assert (Hgone : find (repo.has_id id) (images w1) = None).
  { apply Delete_outcome in H.
    destruct H as [(_ & [(Hr & _)|(c & Hr)])|(row & Hfind & H)]; try discriminate.
    cbv zeta in H. destruct H as [(_ & ->)|(c & Hr & _)]; [|discriminate].
    simpl. apply find_filter_gone. }
  unfold service.Delete, repo.GetByID. rewrite Hpg, Hgone. reflexivity.
Qed.

(** X15. When the removal of the row fails at the end of Delete, the
    blobs were removed already: the row stays in the registry and names
    blobs that are not in the store any more. *)
Theorem failed_Delete_leaves_row_without_blobs id w c w' :
  (forall n, fs_remove fo n = None) ->
  Delete id w = (Some (Wrap "failed to delete image" c), w') ->
  exists row,
    find (repo.has_id id) (images w') = Some row /\
    forall p, In p (blob_paths row) -> p <> "" -> files w' !! p = None.
Proof.
  intros Hq H. apply Delete_outcome in H.
  destruct H as [(_ & [(Hr & _)|(c0 & Hr)])|(row & Hfind & H)]; try discriminate.
  cbv zeta in H. destruct H as [(Hr & _)|(c0 & _ & ->)]; [discriminate|].
  exists row.
  destruct (dropBlob_frame (OriginalPath row) (next w)) as (Hi1 & _).
  destruct (dropBlob_frame (ProcessedPath row)
              (dropBlob (OriginalPath row) (next w))) as (Hi2 & _).
  destruct (dropBlob_frame (ThumbnailPath row)
              (dropBlob (ProcessedPath row) (dropBlob (OriginalPath row) (next w))))
    as (Hi3 & _).
  simpl. rewrite Hi3, Hi2, Hi1. simpl. split; [exact Hfind|].
  intros p Hin Hne. simpl in Hin.
  destruct Hin as [<-|[<-|[<-|[]]]].
  - apply dropBlob_keeps_gone, dropBlob_keeps_gone, dropBlob_removes; assumption.
  - apply dropBlob_keeps_gone, dropBlob_removes; assumption.
  - apply dropBlob_removes; assumption.
Qed.

End Deleting.

Lemma repo_Delete_agree o id w w0 :
  images w = images w0 -> tick w = tick w0 ->
  fst (repo.Delete o id w) = fst (repo.Delete o id w0) /\
  images (snd (repo.Delete o id w)) = images (snd (repo.Delete o id w0)).
Proof.
  intros Hi Ht. unfold repo.Delete. rewrite Ht.
  destruct (pg_error o (tick w0)); simpl; rewrite Hi; auto.
Qed.

(** X16. What the store answers to the removal of the blobs has no
    part in the result of Delete nor in what Delete does to the
    registry: an error of the store is never reported, and it never
    keeps the row from being deleted. *)
Theorem Delete_ignores_the_store o fo fo' id w :
  fst (service.Delete o fo id w) = fst (service.Delete o fo' id w) /\
  images (snd (service.Delete o fo id w))
  = images (snd (service.Delete o fo' id w)).
Proof.
  unfold service.Delete.
  destruct (repo.GetByID o id w) as [[img|e] w1]; [|auto].
  apply repo_Delete_agree.
  - rewrite !(proj1 (dropBlob_frame _ _ _)). reflexivity.
  - rewrite !dropBlob_tick. reflexivity.
Qed.

(** ** What a run of the processor touches *)

Lemma no_separator_cons c s :
  no_separator (String c s) = negb (Ascii.eqb c "/") && no_separator s.
Proof. reflexivity. Qed.

Lemma no_separator_app a b :
  no_separator a = true -> no_separator b = true -> no_separator (a +:+ b) = true.
Proof.
  induction a as [|c a IH]; intros Ha Hb; [exact Hb|].
  rewrite no_separator_cons in Ha. apply andb_prop in Ha. destruct Ha as [Hc Ha].
  change (String c a +:+ b) with (String c (a +:+ b)).
  rewrite no_separator_cons, Hc, (IH Ha Hb). reflexivity.
Qed.

Lemma path_elements_name s : no_separator s = true -> path_elements s = [s].
Proof.
  induction s as [|c s IH]; intros H; [reflexivity|].
  rewrite no_separator_cons in H. apply andb_prop in H. destruct H as [Hc Hs].
  simpl. apply negb_true_iff in Hc. rewrite Hc, (IH Hs). reflexivity.
Qed.

Lemma path_elements_Join dir name :
  no_separator dir = true ->
  path_elements (filepath_Join dir name) = dir :: path_elements name.
Proof.
  unfold filepath_Join.
  induction dir as [|c dir IH]; intros H; [reflexivity|].
  rewrite no_separator_cons in H. apply andb_prop in H. destruct H as [Hc Hd].
  change (String c dir +:+ "/" +:+ name) with (String c (dir +:+ "/" +:+ name)).
  simpl. apply negb_true_iff in Hc. rewrite Hc, (IH Hd). reflexivity.
Qed.

(** An id followed by an extension of [getExtension] is a name: it is
    longer than [.] and [..]. *)
Lemma is_name_with_extension id format :
  is_name (id +:+ service.getExtension format) = true.
Proof.
  assert (H : forall ext, In ext [".jpg"; ".png"; ".gif"] ->
                          is_name (id +:+ ext) = true).
  { intros ext Hext. unfold is_name.
    destruct id as [|c1 [|c2 [|c3 id]]];
      destruct Hext as [<-|[<-|[<-|[]]]]; simpl;
      repeat match goal with
             | |- context [Ascii.eqb ?a ?b] => destruct (Ascii.eqb a b)
             end; reflexivity. }
  apply H. unfold service.getExtension.
  destruct (String.eqb format FormatJPEG); [simpl; auto|].
  destruct (String.eqb format FormatPNG); [simpl; auto|].
  destruct (String.eqb format FormatGIF); simpl; auto.
Qed.

Lemma getExtension_no_separator format :
  no_separator (service.getExtension format) = true.
Proof.
  unfold service.getExtension.
  destruct (String.eqb format FormatJPEG); [reflexivity|].
  destruct (String.eqb format FormatPNG); [reflexivity|].
  destruct (String.eqb format FormatGIF); reflexivity.
Qed.

(** For an id without separator the two paths of the results are clean
    and local: on them [filepath.Join] is the concatenation the model
    makes. *)
Lemma result_paths_clean task :
  no_separator (ImageID task) = true ->
  forallb clean_local (result_paths task) = true.
Proof.
  intros Hid.
  assert (Hname : no_separator (ImageID task +:+ service.getExtension (TaskFormat task))
                  = true)
    by (apply no_separator_app; [exact Hid|apply getExtension_no_separator]).
  unfold result_paths. cbn [forallb]. unfold clean_local.
  rewrite !path_elements_Join by reflexivity.
  rewrite (path_elements_name _ Hname). cbn [forallb].
  rewrite is_name_with_extension. reflexivity.
Qed.

Section ProcessorFrame.

Variable o : Oracle.
Variable cfg : config.ImageConfig.
Variable jpeg_Decode png_Decode gif_Decode : bytes -> Result image.Image.
Variable jpeg_Encode : image.Image -> Z -> Result bytes.
Variable png_Encode gif_Encode : image.Image -> Result bytes.
Variable lanczos3 : Z -> Z -> image.Image -> bytes.
Variable scaled_side : Z -> Z -> Z -> Z.
Variable json_Marshal : ProcessingTask -> Result bytes.

Local Abbreviation saveImage :=
  (service.saveImage o jpeg_Encode png_Encode gif_Encode).
Local Abbreviation decodeImage :=
  (service.decodeImage jpeg_Decode png_Decode gif_Decode).
Local Abbreviation ProcessImage :=
  (service.ProcessImage o cfg jpeg_Decode png_Decode gif_Decode
     jpeg_Encode png_Encode gif_Encode lanczos3 scaled_side).
Local Abbreviation Upload :=
  (service.Upload o cfg jpeg_Decode png_Decode gif_Decode json_Marshal).

Lemma saveImage_frame path img format w r w' :
  saveImage path img format w = (r, w') ->
  topic w' = topic w /\
  forall p, p <> path -> files w' !! p = files w !! p.
Proof.
  unfold service.saveImage. intros H.
  destruct (fs_temp o (tick w)); [inversion H; auto|].
  match type of H with
  | match ?enc with _ => _ end = _ => destruct enc
  end; [|inversion H; auto].
  unfold repo.Save in H.
  destruct (fs_save o _); inversion H; subst; simpl; split; auto;
    intros p Hne; apply lookup_insert_ne; congruence.
Qed.

Lemma markFailed_frame img msg e w r w' :
  service.markFailed o img msg e w = (r, w') ->
  topic w' = topic w /\ files w' = files w.
Proof.
  unfold service.markFailed, repo.Now, repo.Update. intros H.
  destruct (pg_error o _); inversion H; subst; auto.
Qed.

Lemma Update_frame img w r w' :
  repo.Update o img w = (r, w') -> topic w' = topic w /\ files w' = files w.
Proof.
  unfold repo.Update. intros H.
  destruct (pg_error o _); inversion H; subst; auto.
Qed.

Lemma ProcessImage_frame task w r w' :
  ProcessImage task w = (r, w') ->
  topic w' = topic w /\
  forall p, ~ In p (result_paths task) -> files w' !! p = files w !! p.
Proof.
  unfold service.ProcessImage. intros H.
  destruct (repo.GetByID o (ImageID task) w) as [[img|e] w1] eqn:HG.
  2:{ apply GetByID_world in HG. inversion H; subst. auto. }
  pose proof (GetByID_world _ _ _ _ _ HG) as ->. clear HG.
  unfold repo.Now in H.
  match type of H with
  | context [repo.Update o ?p ?wx] =>
      destruct (repo.Update o p wx) as [[e|] w2] eqn:HU
  end.
  { apply Update_frame in HU. destruct HU as [Ht Hf].
    inversion H; subst. rewrite Ht, Hf. auto. }
  apply Update_frame in HU. destruct HU as [Ht2 Hf2]. simpl in Ht2, Hf2.
  destruct (repo.Read o (ImagePath task) w2) as [[data|e] w3] eqn:HR.
  2:{ pose proof (Read_world _ _ _ _ _ HR) as ->.
      apply markFailed_frame in H. destruct H as [Ht Hf]. simpl in Ht, Hf.
      rewrite Ht, Hf, Ht2, Hf2. auto. }
  pose proof (Read_world _ _ _ _ _ HR) as ->. clear HR.
  destruct (decodeImage data (TaskFormat task)) as [orig|e].
  2:{ apply markFailed_frame in H. destruct H as [Ht Hf]. simpl in Ht, Hf.
      rewrite Ht, Hf, Ht2, Hf2. auto. }
  destruct (saveImage _ _ _ _) as [[e|] w4] eqn:HS1 in H.
  { apply saveImage_frame in HS1. destruct HS1 as [Ht4 Hf4]. simpl in Ht4, Hf4.
    apply markFailed_frame in H. destruct H as [Ht Hf].
    rewrite Ht, Hf, Ht4, Ht2. split; [reflexivity|].
    intros p Hp. rewrite Hf4, Hf2; [reflexivity|].
    intros ->. apply Hp. simpl. auto. }
  apply saveImage_frame in HS1. destruct HS1 as [Ht4 Hf4]. simpl in Ht4, Hf4.
  assert (Hw4 : forall p, ~ In p (result_paths task) -> files w4 !! p = files w !! p).
  { intros p Hp. rewrite Hf4, Hf2; [reflexivity|].
    intros ->. apply Hp. simpl. auto. }
  destruct (saveImage _ _ _ w4) as [[e|] w5] eqn:HS2 in H.
  { apply saveImage_frame in HS2. destruct HS2 as [Ht5 Hf5].
    apply markFailed_frame in H. destruct H as [Ht Hf].
    rewrite Ht, Hf, Ht5, Ht4, Ht2. split; [reflexivity|].
    intros p Hp. rewrite Hf5; [apply Hw4, Hp|].
    intros ->. apply Hp. simpl. auto. }
  apply saveImage_frame in HS2. destruct HS2 as [Ht5 Hf5].
  assert (Hw5 : forall p, ~ In p (result_paths task) -> files w5 !! p = files w !! p).
  { intros p Hp. rewrite Hf5; [apply Hw4, Hp|].
    intros ->. apply Hp. simpl. auto. }
  match type of H with
  | context [repo.Update o ?c ?wx] =>
      destruct (repo.Update o c wx) as [r6 w6] eqn:HU2
  end.
  apply Update_frame in HU2. destruct HU2 as [Ht6 Hf6]. simpl in Ht6, Hf6.
  assert (w' = w6) as -> by (destruct r6; congruence).
  rewrite Ht6, Hf6, Ht5, Ht4, Ht2. split; [reflexivity|exact Hw5].
Qed.

Lemma ProcessImage_ids task w :
  map ID (images (snd (ProcessImage task w))) = map ID (images w).
Proof.
  pose proof (ProcessImage_ingested o cfg jpeg_Decode png_Decode gif_Decode
                jpeg_Encode png_Encode gif_Encode lanczos3 scaled_side task w) as Hi.
  apply (f_equal (map (fun t : string * string * ImageFormat * Z * Z * Z =>
                         fst (fst (fst (fst (fst t))))))) in Hi.
  rewrite !map_map in Hi. exact Hi.
Qed.

(** X17. A run of ProcessImage for a task whose id has no separator
    in it, whatever its result, sends nothing to the queue, neither
    adds nor removes a row, and writes to no file but the two it makes,
    processed/<id><ext> and thumbnail/<id><ext>, with the id and the
    format of the task: these two paths are clean and local, and the
    file under any other clean local path is as it was. *)
Theorem ProcessImage_touches_two_files_only task w p :
  no_separator (ImageID task) = true ->
  clean_local p = true ->
  ~ In p (result_paths task) ->
  forallb clean_local (result_paths task) = true
  /\ files (snd (ProcessImage task w)) !! p = files w !! p
  /\ topic (snd (ProcessImage task w)) = topic w
  /\ map ID (images (snd (ProcessImage task w))) = map ID (images w).
Proof.
  intros Hid _ Hp. split; [apply result_paths_clean, Hid|].
  split; [|split; [|apply ProcessImage_ids]].
  - destruct (ProcessImage task w) as [r w'] eqn:H. simpl.
    apply ProcessImage_frame in H. destruct H as [_ Hf]. apply Hf, Hp.
  - destruct (ProcessImage task w) as [r w'] eqn:H. simpl.
    apply ProcessImage_frame in H. apply H.
Qed.

(** X18. The original blob of an uploaded image is still what was
    uploaded after the task of the upload has been processed, with
    success or without. *)
Theorem original_blob_survives_processing file header w img w1 r w2 :
  Upload file header w = (Ok img, w1) ->
  ProcessImage (task_of img) w1 = (r, w2) ->
  files w2 !! OriginalPath img = Some file.
Proof.
  intros HU HP. apply Upload_Ok in HU.
  destruct HU as (format & orig & now & data & p & HU). cbv zeta in HU.
  destruct HU as (_ & _ & _ & Himg & _ & _ & _ & Hf & _).
  apply ProcessImage_frame in HP. destruct HP as [_ HP].
  rewrite HP; [rewrite Hf; apply lookup_insert_eq|].
  subst img. simpl. intros [E|[E|[]]]; discriminate E.
Qed.

Lemma decodeImage_Ok_format data format img :
  decodeImage data format = Ok img ->
  In format [FormatJPEG; FormatPNG; FormatGIF].
Proof.
  unfold service.decodeImage.
  destruct (String.eqb_spec format FormatJPEG) as [->|_]; [simpl; auto|].
  destruct (String.eqb_spec format FormatPNG) as [->|_]; [simpl; auto|].
  destruct (String.eqb_spec format FormatGIF) as [->|_]; [simpl; auto|].
  discriminate.
Qed.

(** X19. ProcessImage succeeds only for a task whose format is jpeg,
    png or gif: with any other format the run ends in an error. *)
Theorem ProcessImage_succeeds_for_known_formats_only task w w' :
  ProcessImage task w = (None, w') ->
  In (TaskFormat task) [FormatJPEG; FormatPNG; FormatGIF].
Proof.
  intros H. apply ProcessImage_outcome in H.
  destruct H as [(c & Hr & _)|(img & t1 & _ & H)]; [discriminate|].
  cbv zeta in H.
  destruct H as [(c & Hr & _)|[(msg & c & t2 & Hr & _)
                |[(c & Hr & _)|(_ & data & orig & t3 & _ & HD & _)]]];
    try discriminate.
  eapply decodeImage_Ok_format. exact HD.
Qed.

End ProcessorFrame.

(** X20. The extension getExtension gives to a format that parseFormat
    has read from an extension is read back by parseFormat as the same
    format, and every format parseFormat reads is jpeg, png or gif. *)
Theorem getExtension_parses_back ext format :
  service.parseFormat ext = Ok format ->
  service.parseFormat (service.getExtension format) = Ok format
  /\ In format [FormatJPEG; FormatPNG; FormatGIF].
Proof.
  unfold service.parseFormat. intros H.
  destruct (String.eqb ext ".jpg" || String.eqb ext ".jpeg").
  { inversion H. split; [reflexivity|simpl; auto]. }
  destruct (String.eqb ext ".png").
  { inversion H. split; [reflexivity|simpl; auto]. }
  destruct (String.eqb ext ".gif").
  { inversion H. split; [reflexivity|simpl; auto]. }
  discriminate.
Qed.

(** ** More on the consumer loop *)

Section ConsumerMore.

Variable St : Type.
Variable ProcessImage : ProcessingTask -> St -> option error * St.
Variable json_Unmarshal : bytes -> Result ProcessingTask.

Local Abbreviation iteration := (kafka.iteration St ProcessImage json_Unmarshal).
Local Abbreviation Start := (kafka.Start St ProcessImage json_Unmarshal).

Lemma Start_app pre rest s s1 tr :
  Start pre s = (None, s1, tr) ->
  Start (pre ++ rest) s
  = (fst (fst (Start rest s1)), snd (fst (Start rest s1)),
     tr ++ snd (Start rest s1)).
Proof.
  revert s s1 tr. induction pre as [|a pre IH]; intros s s1 tr Hpre; simpl in *.
  - inversion Hpre; subst. destruct (Start rest s1) as [[r s2] tr2]. reflexivity.
  - destruct (iteration a s) as [[flow s'] evs].
    destruct flow; [|discriminate].
    destruct (Start pre s') as [[res s''] evs'] eqn:Hrest.
    inversion Hpre; subst.
    rewrite (IH _ _ _ Hrest). simpl. rewrite app_assoc. reflexivity.
Qed.

(** X21. The only errors Start returns are the error of the context,
    an error of FetchMessage and an error of CommitMessages, the last
    two wrapped; an error of the processor is never returned. *)
Theorem Start_returns_reader_errors_only rounds s e s' tr :
  Start rounds s = (Some e, s', tr) ->
  e = kafka.ctx_Err
  \/ (exists c, e = Wrap "failed to fetch message" c)
  \/ (exists c, e = Wrap "failed to commit message" c).
Proof.
  revert s s' tr. induction rounds as [|r rest IH]; intros s s' tr H; simpl in H.
  - discriminate.
  - destruct (iteration r s) as [[flow s1] evs] eqn:Hit.
    destruct flow.
    + destruct (Start rest s1) as [[res s2] evs'] eqn:Hrest.
      inversion H; subst. eapply IH. exact Hrest.
    + inversion H; subst. revert Hit. unfold kafka.iteration.
      destruct (kafka.ctx_done r); [intros [= <- _ _]; auto|].
      destruct (kafka.fetched r) as [msg|c]; [|intros [= <- _ _]; eauto].
      destruct (json_Unmarshal _); [|discriminate].
      destruct (ProcessImage _ _).
      destruct (kafka.commit_result r) as [c|]; [|discriminate].
      intros [= <- _ _]. eauto.
Qed.

(** X22. When the context is done at the head of the loop, Start
    returns the error of the context without fetching: the state of
    the processor and the trace are those of the turns before. *)
Theorem cancelled_loop_stops_before_fetch pre r rest s s1 tr :
  Start pre s = (None, s1, tr) ->
  kafka.ctx_done r = true ->
  Start (pre ++ r :: rest) s = (Some kafka.ctx_Err, s1, tr).
Proof.
  intros Hpre Hctx. rewrite (Start_app _ _ _ _ _ Hpre). simpl.
  unfold kafka.iteration. rewrite Hctx. simpl. rewrite app_nil_r. reflexivity.
Qed.

(** X23. The loop outlives the errors of the processor and the
    payloads it cannot read: as long as the context is not done, the
    fetches succeed, and the commits of the messages that deserialize
    succeed, Start is still running after any number of turns, and it
    has committed one message per turn. *)
Theorem loop_outlives_processor_errors rounds s :
  Forall (passes json_Unmarshal) rounds ->
  fst (fst (Start rounds s)) = None /\
  length (List.filter is_commit (snd (Start rounds s))) = length rounds.
Proof.
  intros Hall. revert s. induction Hall as [|r rest Hr _ IH]; intros s; simpl.
  - auto.
  - destruct Hr as (Hctx & msg & Hfetch & Hcommit).
    unfold kafka.iteration. rewrite Hctx, Hfetch.
    destruct (json_Unmarshal (kafkago.Value msg)) as [task|e] eqn:HU.
    + destruct Hcommit as [Hc|[e He]]; [|congruence].
      destruct (ProcessImage task s) as [res s1]. rewrite Hc.
      specialize (IH s1). destruct (Start rest s1) as [[r2 s2] tr2].
      simpl in *. destruct IH as [-> ->]. auto.
    + specialize (IH s). destruct (Start rest s) as [[r2 s2] tr2].
      simpl in *. destruct IH as [-> ->]. auto.
Qed.

End ConsumerMore.

(** ** The handlers *)

Section Handlers.

Variable o : Oracle.
Variable fo : MoreFaults.
Variable cfg : config.ImageConfig.
Variable jpeg_Decode png_Decode gif_Decode : bytes -> Result image.Image.
Variable json_Marshal : ProcessingTask -> Result bytes.
Variable strconv_Atoi : string -> Result Z.

Local Abbreviation Upload :=
  (service.Upload o cfg jpeg_Decode png_Decode gif_Decode json_Marshal).
Local Abbreviation GetImage := (httptransport.GetImage o).
Local Abbreviation GetImageInfo := (httptransport.GetImageInfo o).
Local Abbreviation DeleteImage := (httptransport.DeleteImage o fo).
Local Abbreviation ListImages := (httptransport.ListImages o fo strconv_Atoi).
Local Abbreviation listLimit := (httptransport.listLimit strconv_Atoi).
Local Abbreviation listOffset := (httptransport.listOffset strconv_Atoi).

Lemma list_parameters_valid query :
  0 < listLimit query /\ 0 <= listOffset query.
Proof.
  unfold httptransport.listLimit, httptransport.listOffset. split.
  - destruct (String.eqb (query "limit") ""); [lia|].
    destruct (strconv_Atoi (query "limit")) as [l|]; [|lia].
    destruct (0 <? l) eqn:E; [apply Z.ltb_lt in E; exact E|lia].
  - destruct (String.eqb (query "offset") ""); [lia|].
    destruct (strconv_Atoi (query "offset")) as [off|]; [|lia].
    destruct (0 <=? off) eqn:E; [apply Z.leb_le in E; exact E|lia].
Qed.


(** X25. Right after a successful upload, a request for the image
    under its id is answered with status 200, the content type of its
    format, and the bytes that were uploaded. *)
Theorem GetImage_serves_upload file header w img w1 :
  Upload file header w = (Ok img, w1) ->
  pg_error o (tick w1) = None ->
  fs_open o (S (tick w1)) = None ->
  fst (GetImage (ID img) w1)
  = {| httptransport.StatusCode := 200;
       httptransport.ContentType := httptransport.contentTypeOf (Format img);
       httptransport.Payload := httptransport.Blob file |}.
Proof.
  intros HU Hpg Hopen.
  pose proof (Upload_Ok_valid _ _ _ _ _ _ _ _ _ _ _ HU) as HV.
  apply Upload_Ok in HU.
  destruct HU as (format & orig & now & data & p & HU). cbv zeta in HU.
  destruct HU as (_ & _ & _ & Himg & _ & Hi & Hfresh & Hf & _).
  unfold Validate in HV.
  destruct (String.eqb (ID img) "") eqn:Eid; [discriminate|].
  unfold httptransport.GetImage, service.GetByID, repo.GetByID.
  rewrite Eid, Hpg, Hi.
  rewrite find_app_fresh; [|exact Hfresh|unfold repo.has_id; apply String.eqb_refl].
  assert (Hpp : ProcessedPath img = "") by (subst img; reflexivity).
  rewrite Hpp. simpl. unfold repo.Read. simpl.
  rewrite Hf, lookup_insert_eq, Hopen. reflexivity.
Qed.

(** X26. After a delete request was answered with status 204, a
    request for the image, for its description, or a second delete
    request for the same id is answered with status 404. *)
Theorem DeleteImage_then_not_found id w resp w1 :
  DeleteImage id w = (resp, w1) ->
  httptransport.StatusCode resp = 204 ->
  pg_error o (tick w1) = None ->
  httptransport.StatusCode (fst (GetImage id w1)) = 404
  /\ httptransport.StatusCode (fst (GetImageInfo id w1)) = 404
  /\ httptransport.StatusCode (fst (DeleteImage id w1)) = 404.
Proof.
  unfold httptransport.DeleteImage at 1. intros HD Hcode Hpg.
  destruct (String.eqb id "") eqn:Eid.
  { inversion HD; subst. discriminate Hcode. }
  destruct (service.Delete o fo id w) as [[e|] w2] eqn:HS.
  { destruct (is_ErrImageNotFound e); inversion HD; subst; discriminate Hcode. }
  inversion HD; subst w2; clear HD.
  assert (Hgone : find (repo.has_id id) (images w1) = None).
  { apply Delete_outcome in HS.
    destruct HS as [(_ & [(Hr & _)|(c & Hr)])|(row & Hfind & H)]; try discriminate.
    cbv zeta in H. destruct H as [(_ & ->)|(c & Hr & _)]; [|discriminate].
    simpl. apply find_filter_gone. }
  unfold httptransport.GetImage, httptransport.GetImageInfo,
    httptransport.DeleteImage, service.Delete, service.GetByID, repo.GetByID.
  rewrite Eid, Hpg, Hgone. simpl. auto.
Qed.

(** X27. An upload whose extension, written in ASCII, is not
    supported and whose size is within the maximum is answered with
    status 500 and the text of the error, as every failure of the
    upload service is, and changes nothing. *)
Theorem unsupported_upload_is_answered_500 file header form w :
  httptransport.parse_error form = None ->
  httptransport.form_file form = Ok (file, header) ->
  service.Size header <= config.MaxFileSize cfg ->
  isASCII (filepath_Ext (service.Filename header)) = true ->
  ~ In (strings_ToLower (filepath_Ext (service.Filename header)))
       [".jpg"; ".jpeg"; ".png"; ".gif"] ->
  let run := httptransport.Upload o cfg jpeg_Decode png_Decode gif_Decode
               json_Marshal form w in
  fst run
  = httptransport.http_Error
      "failed to upload image: unsupported format: invalid image format" 500
  /\ images (snd run) = images w /\ files (snd run) = files w
  /\ topic (snd run) = topic w.
Proof.
  intros Hparse Hfile Hsize _ Hext. cbv zeta.
  apply parseFormat_unsupported in Hext.
  unfold httptransport.Upload, service.Upload, repo.GenerateID.
  rewrite Hparse, Hfile.
  assert (E : (config.MaxFileSize cfg <? service.Size header) = false)
    by (apply Z.ltb_ge; exact Hsize).
  rewrite E, Hext. simpl. auto.
Qed.

End Handlers.

(** ** The configuration loader *)

Section Loader.

Variable os_Getenv : string -> string.
Variable strconv_Atoi : string -> Result Z.
Variable strconv_ParseInt : string -> Result Z.
Variable strconv_ParseBool : string -> Result bool.
Variable time_ParseDuration : string -> Result Z.
Variable strings_Split : string -> string -> list string.
Variable strings_TrimSpace : string -> string.

Local Abbreviation getEnv := (config.getEnv os_Getenv).
Local Abbreviation getEnvSlice :=
  (config.getEnvSlice os_Getenv strings_Split strings_TrimSpace).
Local Abbreviation trimmedParts := (config.trimmedParts strings_TrimSpace).
Local Abbreviation Load :=
  (config.Load os_Getenv strconv_Atoi strconv_ParseInt strconv_ParseBool
     time_ParseDuration strings_Split strings_TrimSpace).

Lemma trimmedParts_spec parts :
  Forall (fun s => s <> "" /\
                   exists part, In part parts /\ s = strings_TrimSpace part)
    (trimmedParts parts).
Proof.
  induction parts as [|part rest IH]; simpl; [constructor|].
  assert (IH' : Forall (fun s => s <> "" /\
                          exists q, (part = q \/ In q rest) /\
                                    s = strings_TrimSpace q)
                  (trimmedParts rest)).
  { eapply Forall_impl; [exact IH|]. intros s (Hs & q & Hq & ->). eauto. }
  destruct (String.eqb_spec (strings_TrimSpace part) "") as [E|E]; [exact IH'|].
  constructor; [|exact IH']. eauto.
Qed.

Lemma getEnvSlice_nonempty key defaultValue :
  defaultValue <> [] -> getEnvSlice key defaultValue <> [].
Proof.
  intros Hdef. unfold config.getEnvSlice.
  destruct (String.eqb (os_Getenv key) ""); [exact Hdef|].
  destruct (trimmedParts _) as [|s rest]; simpl; [exact Hdef|discriminate].
Qed.

(** X28. The list getEnvSlice returns is the default, or it is not
    empty and each of its elements is a part of the value of the
    variable, trimmed, with something left after trimming: a value of
    nothing but commas and spaces gives the default. *)
Theorem getEnvSlice_default_or_parts key defaultValue :
  getEnvSlice key defaultValue = defaultValue
  \/ (getEnvSlice key defaultValue <> [] /\
      Forall (fun s => s <> "" /\
                       exists part, In part (strings_Split (os_Getenv key) ",") /\
                                    s = strings_TrimSpace part)
        (getEnvSlice key defaultValue)).
Proof.
  unfold config.getEnvSlice.
  destruct (String.eqb (os_Getenv key) ""); [auto|].
  pose proof (trimmedParts_spec (strings_Split (os_Getenv key) ",")) as Hall.
  destruct (trimmedParts _) as [|s rest]; simpl; [auto|].
  right. split; [discriminate|exact Hall].
Qed.

(** X29. Load never fails: whatever the environment holds and whatever
    the parsers make of it, the configuration has a storage base path
    and at least one broker, so that the validation in Load cannot
    refuse it. *)
Theorem Load_never_fails :
  exists c, Load = Ok c /\
            config.BasePath (config.Storage c) <> "" /\
            config.Brokers (config.Kafka c) <> [].
Proof.
  unfold config.Load.
  match goal with
  | |- context [config.Validate ?c] => set (c0 := c)
  end.
  assert (Hbase : config.BasePath (config.Storage c0) <> "").
  { simpl. unfold config.getEnv.
    destruct (String.eqb_spec (os_Getenv "STORAGE_BASE_PATH") ""); [discriminate|assumption]. }
  assert (Hbrokers : config.Brokers (config.Kafka c0) <> []).
  { simpl. apply getEnvSlice_nonempty. discriminate. }
  exists c0. split; [|auto].
  unfold config.Validate.
  destruct (String.eqb_spec (config.BasePath (config.Storage c0)) ""); [contradiction|].
  destruct (config.Brokers (config.Kafka c0)); [contradiction|reflexivity].
Qed.

End Loader.

(** ** Unique ids through the services *)

Section UniqueIds.

Variable o : Oracle.
Variable fo : MoreFaults.
Variable cfg : config.ImageConfig.
Variable jpeg_Decode png_Decode gif_Decode : bytes -> Result image.Image.
Variable jpeg_Encode : image.Image -> Z -> Result bytes.
Variable png_Encode gif_Encode : image.Image -> Result bytes.
Variable lanczos3 : Z -> Z -> image.Image -> bytes.
Variable scaled_side : Z -> Z -> Z -> Z.
Variable json_Marshal : ProcessingTask -> Result bytes.

Local Abbreviation ProcessImage :=
  (service.ProcessImage o cfg jpeg_Decode png_Decode gif_Decode
     jpeg_Encode png_Encode gif_Encode lanczos3 scaled_side).
Local Abbreviation Upload :=
  (service.Upload o cfg jpeg_Decode png_Decode gif_Decode json_Marshal).

(** X30. The three services that write to the registry keep its ids
    unique, whether they succeed or fail: Upload, ProcessImage and
    Delete. *)
Theorem services_keep_ids_unique w :
  unique_ids w ->
  (forall file header, unique_ids (snd (Upload file header w)))
  /\ (forall task, unique_ids (snd (ProcessImage task w)))
  /\ (forall id, unique_ids (snd (service.Delete o fo id w))).
Proof.
  unfold unique_ids. intros Hnd. split; [|split].
  - intros file header.
    destruct (Upload file header w) as [[img|e] w'] eqn:H; simpl.
    + apply Upload_Ok in H.
      destruct H as (format & orig & now & data & p & H). cbv zeta in H.
      destruct H as (_ & _ & _ & _ & _ & -> & Hfresh & _).
      apply NoDup_ids_app_fresh; assumption.
    + apply Upload_Err in H. cbv zeta in H.
      destruct H as [(_ & ->)|[(_ & ->)|[(c & _ & -> & _)
                    |[(msg & c & _ & _ & -> & _)|(c & f & og & t & _ & -> & Hfresh & _)]]]];
        try exact Hnd.
      apply NoDup_ids_app_fresh; assumption.
  - intros task.
    rewrite (ProcessImage_ids o cfg jpeg_Decode png_Decode gif_Decode
               jpeg_Encode png_Encode gif_Encode lanczos3 scaled_side task w).
    exact Hnd.
  - intros id. destruct (service.Delete o fo id w) as [r w'] eqn:H. simpl.
    apply Delete_outcome in H.
    destruct H as [(-> & _)|(row & _ & H)]; [exact Hnd|].
    cbv zeta in H.
    assert (Hi : images (service.dropBlob fo (ThumbnailPath row)
                           (service.dropBlob fo (ProcessedPath row)
                              (service.dropBlob fo (OriginalPath row) (next w))))
                 = images w).
    { rewrite !(proj1 (dropBlob_frame _ _ _)). reflexivity. }
    destruct H as [(_ & ->)|(c & _ & ->)]; simpl; rewrite Hi;
      [apply NoDup_map_filter|]; exact Hnd.
Qed.

End UniqueIds.

(** ** The further properties at work on a deployment *)

Lemma library_ids_unique : unique_ids Fixture.library.
Proof.
  unfold unique_ids. simpl.
  apply NoDup_cons. split.
  - rewrite list_elem_of_In. simpl. intros [H|[]]. discriminate H.
  - apply NoDup_singleton.
Qed.

Lemma Create_then_GetByID_witness :
  let w1 := snd (repo.Create Fixture.calm Fixture.row2
                   (Fixture.registered StatusPending)) in
  repo.GetByID Fixture.calm "id-2" w1 = (Ok Fixture.row2, next w1).
Proof.
  cbv zeta.
  apply (Create_then_GetByID Fixture.calm Fixture.row2
           (Fixture.registered StatusPending)).
  - vm_compute. reflexivity.
  - reflexivity.
Defined.

Lemma Update_of_unknown_id_is_silent_witness :
  repo.Update Fixture.calm Fixture.row2 (Fixture.registered StatusPending)
  = (None, next (Fixture.registered StatusPending)).
Proof.
  apply (Update_of_unknown_id_is_silent Fixture.calm Fixture.row2
           (Fixture.registered StatusPending)).
  - vm_compute. reflexivity.
  - reflexivity.
Defined.

Lemma Update_then_GetByID_witness :
  let w1 := snd (repo.Update Fixture.calm (Fixture.row StatusFailed)
                   Fixture.library) in
  repo.GetByID Fixture.calm "id-1" w1
  = (Ok (repo.updateRow (Fixture.row StatusFailed) (Fixture.row StatusPending)),
     next w1)
  /\ forall id, id <> "id-1" ->
                find (repo.has_id id) (images w1)
                = find (repo.has_id id) (images Fixture.library).
Proof.
  cbv zeta.
  apply (Update_then_GetByID Fixture.calm (Fixture.row StatusFailed)
           Fixture.library).
  - vm_compute. reflexivity.
  - vm_compute. reflexivity.
  - reflexivity.
Defined.


Lemma registry_keeps_ids_unique_witness :
  (forall img, unique_ids (snd (repo.Create Fixture.calm img Fixture.library)))
  /\ (forall img, unique_ids (snd (repo.Update Fixture.calm img Fixture.library)))
  /\ (forall id, unique_ids (snd (repo.Delete Fixture.calm id Fixture.library))).
Proof.
  apply (registry_keeps_ids_unique Fixture.calm Fixture.library).
  exact library_ids_unique.
Defined.

Lemma List_returns_sorted_page_witness :
  exists sorted,
    Permutation sorted (images Fixture.library) /\
    StronglySorted newest_first sorted /\
    [Fixture.row StatusPending] = take (Z.to_nat 1) (drop (Z.to_nat 0) sorted) /\
    length [Fixture.row StatusPending]
    = Nat.min (Z.to_nat 1) (length (images Fixture.library) - Z.to_nat 0).
Proof.
  apply (List_returns_sorted_page Fixture.calm Fixture.quiet 1 0 Fixture.library
           [Fixture.row StatusPending] (next Fixture.library)).
  vm_compute. reflexivity.
Defined.

Lemma Save_then_Read_witness :
  let w1 := snd (repo.Save Fixture.calm "original/id-3.gif" Fixture.content
                   Fixture.library) in
  repo.Read Fixture.calm "original/id-3.gif" w1 = (Ok Fixture.content, next w1)
  /\ forall p, clean_local p = true -> p <> "original/id-3.gif" ->
               files w1 !! p = files Fixture.library !! p.
Proof.
  cbv zeta.
  apply (Save_then_Read Fixture.calm "original/id-3.gif" Fixture.content
           Fixture.library).
  - reflexivity.
  - vm_compute. reflexivity.
  - reflexivity.
Defined.

Lemma DeleteFile_then_gone_witness :
  let w1 := snd (repo.DeleteFile Fixture.quiet "original/id-1.jpg"
                   Fixture.library) in
  repo.Exists Fixture.quiet "original/id-1.jpg" w1 = (Ok false, next w1)
  /\ repo.Read Fixture.calm "original/id-1.jpg" w1
     = (Err (Wrap "file not found" (External "no such file")), next w1)
  /\ repo.DeleteFile Fixture.quiet "original/id-1.jpg" w1 = (None, next w1)
  /\ forall p, clean_local p = true -> p <> "original/id-1.jpg" ->
               files w1 !! p = files Fixture.library !! p.
Proof.
  cbv zeta.
  apply (DeleteFile_then_gone Fixture.calm Fixture.quiet "original/id-1.jpg"
           Fixture.library).
  - reflexivity.
  - exists Fixture.content. vm_compute. reflexivity.
  - vm_compute. reflexivity.
Defined.



Lemma failed_Upload_leaves_blob_without_row_witness :
  let run := service.Upload Fixture.calm Fixture.cfg Fixture.no_decode
               Fixture.no_decode Fixture.no_decode Fixture.marshal Fixture.content
               (Fixture.photo "photo.jpg" 3) Fixture.empty in
  files (snd run) !! filepath_Join "original"
                       (uuid_New Fixture.calm (tick Fixture.empty)
                        +:+ strings_ToLower (filepath_Ext "photo.jpg"))
  = Some Fixture.content
  /\ images (snd run) = images Fixture.empty
  /\ topic (snd run) = topic Fixture.empty.
Proof.
  cbv zeta.
  apply (failed_Upload_leaves_blob_without_row Fixture.calm Fixture.cfg
           Fixture.no_decode Fixture.no_decode Fixture.no_decode Fixture.marshal
           Fixture.content (Fixture.photo "photo.jpg" 3) Fixture.empty
           "failed to decode image" (External "invalid format")).
  - vm_compute. reflexivity.
  - simpl. auto.
Defined.

Lemma Upload_then_lookup_witness :
  let img := Fixture.row StatusPending in
  let w1 := snd (Fixture.Upload Fixture.calm Fixture.content
                   (Fixture.photo "photo.jpg" 3) Fixture.empty) in
  (Status img = StatusPending /\ ID img <> "" /\ OriginalPath img <> "" /\
   ProcessedPath img = "" /\ ThumbnailPath img = "" /\
   ProcessedWidth img = 0 /\ ProcessedHeight img = 0 /\
   CreatedAt img = UpdatedAt img)
  /\ (pg_error Fixture.calm (tick w1) = None ->
      repo.GetByID Fixture.calm (ID img) w1 = (Ok img, next w1))
  /\ (fs_open Fixture.calm (tick w1) = None ->
      repo.Read Fixture.calm (OriginalPath img) w1 = (Ok Fixture.content, next w1)).
Proof.
  cbv zeta.
  apply (Upload_then_lookup Fixture.calm Fixture.cfg Fixture.decode
           Fixture.decode Fixture.decode Fixture.marshal Fixture.content
           (Fixture.photo "photo.jpg" 3) Fixture.empty).
  vm_compute. reflexivity.
Defined.


Lemma Delete_twice_witness :
  let w1 := snd (service.Delete Fixture.calm Fixture.quiet "id-2" Fixture.library) in
  service.Delete Fixture.calm Fixture.quiet "id-2" w1
  = (Some ErrImageNotFound, next w1).
Proof.
  cbv zeta.
  apply (Delete_twice Fixture.calm Fixture.quiet "id-2" Fixture.library).
  - vm_compute. reflexivity.
  - reflexivity.
Defined.

Lemma failed_Delete_leaves_row_without_blobs_witness :
  let w' := snd (service.Delete (Fixture.pg_down_from 4) Fixture.quiet "id-2"
                   Fixture.library) in
  exists row,
    find (repo.has_id "id-2") (images w') = Some row /\
    forall p, In p (blob_paths row) -> p <> "" -> files w' !! p = None.
Proof.
  cbv zeta.
  apply (failed_Delete_leaves_row_without_blobs (Fixture.pg_down_from 4)
           Fixture.quiet "id-2" Fixture.library (External "connection lost")).
  - intros n. reflexivity.
  - vm_compute. reflexivity.
Defined.

Lemma ProcessImage_touches_two_files_only_witness :
  let w' := snd (Fixture.ProcessImage Fixture.calm Fixture.sample_task
                   (Fixture.stored StatusPending)) in
  forallb clean_local (result_paths Fixture.sample_task) = true
  /\ files w' !! "original/id-1.jpg"
     = files (Fixture.stored StatusPending) !! "original/id-1.jpg"
  /\ topic w' = topic (Fixture.stored StatusPending)
  /\ map ID (images w') = map ID (images (Fixture.stored StatusPending)).
Proof.
  cbv zeta.
  apply (ProcessImage_touches_two_files_only Fixture.calm Fixture.cfg
           Fixture.decode Fixture.decode Fixture.decode
           Fixture.encodeq Fixture.encode Fixture.encode
           Fixture.kernel Fixture.side
           Fixture.sample_task (Fixture.stored StatusPending) "original/id-1.jpg").
  - reflexivity.
  - reflexivity.
  - vm_compute. intros [H|[H|[]]]; discriminate H.
Defined.

Lemma original_blob_survives_processing_witness :
  let w1 := snd (Fixture.Upload Fixture.calm Fixture.content
                   (Fixture.photo "photo.jpg" 3) Fixture.empty) in
  let w2 := snd (Fixture.ProcessImage Fixture.calm
                   (task_of (Fixture.row StatusPending)) w1) in
  files w2 !! OriginalPath (Fixture.row StatusPending) = Some Fixture.content.
Proof.
  cbv zeta.
  apply (original_blob_survives_processing Fixture.calm Fixture.cfg
           Fixture.decode Fixture.decode Fixture.decode
           Fixture.encodeq Fixture.encode Fixture.encode
           Fixture.kernel Fixture.side Fixture.marshal
           Fixture.content (Fixture.photo "photo.jpg" 3) Fixture.empty
           (Fixture.row StatusPending)
           (snd (Fixture.Upload Fixture.calm Fixture.content
                   (Fixture.photo "photo.jpg" 3) Fixture.empty))
           None).
  - vm_compute. reflexivity.
  - vm_compute. reflexivity.
Defined.

Lemma ProcessImage_succeeds_for_known_formats_only_witness :
  In (TaskFormat Fixture.sample_task) [FormatJPEG; FormatPNG; FormatGIF].
Proof.
  apply (ProcessImage_succeeds_for_known_formats_only Fixture.calm Fixture.cfg
           Fixture.decode Fixture.decode Fixture.decode
           Fixture.encodeq Fixture.encode Fixture.encode
           Fixture.kernel Fixture.side
           Fixture.sample_task (Fixture.stored StatusPending)
           (snd (Fixture.ProcessImage Fixture.calm Fixture.sample_task
                   (Fixture.stored StatusPending)))).
  vm_compute. reflexivity.
Defined.

Lemma getExtension_parses_back_witness :
  service.parseFormat (service.getExtension FormatJPEG) = Ok FormatJPEG
  /\ In FormatJPEG [FormatJPEG; FormatPNG; FormatGIF].
Proof.
  apply (getExtension_parses_back ".jpeg" FormatJPEG). reflexivity.
Defined.

Lemma Start_returns_reader_errors_only_witness :
  Wrap "failed to fetch message" (External "connection reset") = kafka.ctx_Err
  \/ (exists c, Wrap "failed to fetch message" (External "connection reset")
                = Wrap "failed to fetch message" c)
  \/ (exists c, Wrap "failed to fetch message" (External "connection reset")
                = Wrap "failed to commit message" c).
Proof.
  apply (Start_returns_reader_errors_only World
           (Fixture.ProcessImage Fixture.calm) Fixture.unmarshal
           [Fixture.round_of Fixture.content; Fixture.broken_fetch]
           (Fixture.registered StatusPending)
           (Wrap "failed to fetch message" (External "connection reset"))
           (snd (Fixture.ProcessImage Fixture.calm Fixture.sample_task
                   (Fixture.registered StatusPending)))
           [kafka.EvFetch (Fixture.message Fixture.content);
            kafka.EvProcess Fixture.sample_task
              (fst (Fixture.ProcessImage Fixture.calm Fixture.sample_task
                      (Fixture.registered StatusPending)));
            kafka.EvCommit (Fixture.message Fixture.content) None]).
  vm_compute. reflexivity.
Defined.

Lemma cancelled_loop_stops_before_fetch_witness :
  kafka.Start World (Fixture.ProcessImage Fixture.calm) Fixture.unmarshal
    ([Fixture.round_of []]
     ++ {| kafka.ctx_done := true;
           kafka.fetched := Ok (Fixture.message Fixture.content);
           kafka.commit_result := None |}
     :: [Fixture.round_of Fixture.content])
    (Fixture.registered StatusPending)
  = (Some kafka.ctx_Err, Fixture.registered StatusPending,
     [kafka.EvFetch (Fixture.message []); kafka.EvCommit (Fixture.message []) None]).
Proof.
  apply (cancelled_loop_stops_before_fetch World
           (Fixture.ProcessImage Fixture.calm) Fixture.unmarshal
           [Fixture.round_of []]).
  - reflexivity.
  - reflexivity.
Defined.

Lemma loop_outlives_processor_errors_witness :
  let run := kafka.Start World (Fixture.ProcessImage Fixture.calm) Fixture.unmarshal
               [Fixture.round_of []; Fixture.round_of Fixture.content;
                Fixture.round_of Fixture.content]
               (Fixture.registered StatusPending) in
  fst (fst run) = None /\
  length (List.filter is_commit (snd run)) = 3%nat.
Proof.
  cbv zeta.
  apply (loop_outlives_processor_errors World
           (Fixture.ProcessImage Fixture.calm) Fixture.unmarshal
           [Fixture.round_of []; Fixture.round_of Fixture.content;
            Fixture.round_of Fixture.content]).
  repeat constructor; simpl; eauto.
Defined.


Lemma GetImage_serves_upload_witness :
  let w1 := snd (Fixture.Upload Fixture.calm Fixture.content
                   (Fixture.photo "photo.jpg" 3) Fixture.empty) in
  fst (httptransport.GetImage Fixture.calm "id-1" w1)
  = {| httptransport.StatusCode := 200;
       httptransport.ContentType := "image/jpeg";
       httptransport.Payload := httptransport.Blob Fixture.content |}.
Proof.
  cbv zeta.
  apply (GetImage_serves_upload Fixture.calm Fixture.cfg Fixture.decode
           Fixture.decode Fixture.decode Fixture.marshal Fixture.content
           (Fixture.photo "photo.jpg" 3) Fixture.empty
           (Fixture.row StatusPending)).
  - vm_compute. reflexivity.
  - reflexivity.
  - reflexivity.
Defined.

Lemma DeleteImage_then_not_found_witness :
  let w1 := snd (httptransport.DeleteImage Fixture.calm Fixture.quiet "id-2"
                   Fixture.library) in
  httptransport.StatusCode (fst (httptransport.GetImage Fixture.calm "id-2" w1)) = 404
  /\ httptransport.StatusCode
       (fst (httptransport.GetImageInfo Fixture.calm "id-2" w1)) = 404
  /\ httptransport.StatusCode
       (fst (httptransport.DeleteImage Fixture.calm Fixture.quiet "id-2" w1)) = 404.
Proof.
  cbv zeta.
  apply (DeleteImage_then_not_found Fixture.calm Fixture.quiet "id-2"
           Fixture.library
           (fst (httptransport.DeleteImage Fixture.calm Fixture.quiet "id-2"
                   Fixture.library))).
  - vm_compute. reflexivity.
  - reflexivity.
  - reflexivity.
Defined.

Lemma unsupported_upload_is_answered_500_witness :
  let form := {| httptransport.parse_error := None;
                 httptransport.form_file :=
                   Ok (Fixture.content, Fixture.photo "scan.bmp" 10) |} in
  let run := httptransport.Upload Fixture.calm Fixture.cfg Fixture.decode
               Fixture.decode Fixture.decode Fixture.marshal form Fixture.library in
  fst run
  = httptransport.http_Error
      "failed to upload image: unsupported format: invalid image format" 500
  /\ images (snd run) = images Fixture.library
  /\ files (snd run) = files Fixture.library
  /\ topic (snd run) = topic Fixture.library.
Proof.
  cbv zeta.
  apply (unsupported_upload_is_answered_500 Fixture.calm Fixture.cfg
           Fixture.decode Fixture.decode Fixture.decode Fixture.marshal
           Fixture.content (Fixture.photo "scan.bmp" 10)).
  - reflexivity.
  - reflexivity.
  - simpl. lia.
  - reflexivity.
  - vm_compute. intros [H|[H|[H|[H|[]]]]]; discriminate H.
Defined.

Lemma services_keep_ids_unique_witness :
  (forall file header,
      unique_ids (snd (Fixture.Upload Fixture.calm file header Fixture.library)))
  /\ (forall task,
         unique_ids (snd (Fixture.ProcessImage Fixture.calm task Fixture.library)))
  /\ (forall id,
         unique_ids (snd (service.Delete Fixture.calm Fixture.quiet id
                            Fixture.library))).
Proof.
  apply (services_keep_ids_unique Fixture.calm Fixture.quiet Fixture.cfg
           Fixture.decode Fixture.decode Fixture.decode
           Fixture.encodeq Fixture.encode Fixture.encode
           Fixture.kernel Fixture.side Fixture.marshal Fixture.library).
  exact library_ids_unique.
Defined.
